(** * Streaming site-to-site file transfer: a shallow embedding

    The development follows the layout of the repository:

    - [Js]                 the fragment of the JavaScript runtime the node
                           relies on (values, truthiness, [String], [parseInt],
                           [trim], [includes], [JSON.stringify], exceptions)
                           and the interface [Runtime] of the services it
                           calls ([JSON.parse], the [URL] constructor, the
                           conversion of a value to a number);
    - [GenericFunctions]   [extractBearerToken] and [parseHeaders]
                           (GenericFunctions.ts);
    - [Operation]          parameters, results, the monad of an invocation
                           and the statements the two [execute] functions
                           have in common;
    - [TransferFile]       [execute] of transferFile.operation.ts, the
                           operation that downloads with the native http
                           client;
    - [HelperTransfer]     [execute] of the older operation that downloads
                           with [helpers.request];
    - [Reference]          an executable instance of [Runtime];
    - [Notions], [Examples] the vocabulary of the statements and the concrete
                           inputs they are run on.

    Numbers are modelled by integers: status codes, lengths and array indices
    are integers in the program, and [String] writes an integer below 10^21
    in decimal digits.  Strings are held in UTF-8; [trim] and [parseInt]
    skip every white space code point of the language, and lengths are
    counted in UTF-16 code units.  Records and header objects are finite
    maps from names to values; an assignment to the property name
    [__proto__] of a header object stores nothing.  The HTTP transport is an
    oracle that answers each request; every request sent is logged. *)

From Stdlib Require Import ZArith String Ascii List Lia.
From stdpp Require Import base option list strings gmap pretty.

Set Warnings "-register-all".

Local Open Scope string_scope.
Local Open Scope Z_scope.

(** ** The JavaScript fragment *)

Module Js.

Inductive JsValue : Type :=
| JUndefined
| JNull
| JBool (b : bool)
| JNum (n : Z)
| JStr (s : string)
| JArr (xs : list JsValue)
| JObj (fields : list (string * JsValue)).

Inductive JsType : Type :=
| TUndefined | TObject | TBoolean | TNumber | TString.

Global Instance JsType_eq_dec : EqDecision JsType.
Proof. solve_decision. Defined.

(** [typeof v]; note [typeof null === 'object']. *)
Definition typeof (v : JsValue) : JsType :=
  match v with
  | JUndefined => TUndefined
  | JNull => TObject
  | JBool _ => TBoolean
  | JNum _ => TNumber
  | JStr _ => TString
  | JArr _ => TObject
  | JObj _ => TObject
  end.

Definition typeof_name (t : JsType) : string :=
  match t with
  | TUndefined => "undefined"
  | TObject => "object"
  | TBoolean => "boolean"
  | TNumber => "number"
  | TString => "string"
  end.

Definition is_null (v : JsValue) : bool :=
  match v with JNull => true | _ => false end.

(** ToBoolean, as used by [if (x)], [!x] and [a || b]. *)
Definition truthy (v : JsValue) : bool :=
  match v with
  | JUndefined | JNull => false
  | JBool b => b
  | JNum n => negb (n =? 0)
  | JStr s => negb (String.eqb s EmptyString)
  | JArr _ | JObj _ => true
  end.

(** [String(n)] for an integer [n]. *)
Definition String_of_number (n : Z) : string := pretty n.

(** [Object.entries(v)] for an array or a plain object: an array lists its
    elements under their decimal indices. *)
Definition index_entries {A} (xs : list A) : list (string * A) :=
  imap (λ i x, (pretty i, x)) xs.

Definition Object_entries (v : JsValue) : list (string * JsValue) :=
  match v with
  | JObj fields => fields
  | JArr xs => index_entries xs
  | _ => []
  end.

Definition Object_keys (v : JsValue) : list string :=
  (Object_entries v).*1.

(** *** Strings *)

(** [hay.includes(needle)] *)
Fixpoint includes (needle hay : string) : bool :=
  String.prefix needle hay ||
  match hay with
  | EmptyString => false
  | String _ rest => includes needle rest
  end.

(** Strings are held in UTF-8, one [ascii] per byte; a surrogate that lost
    its partner is held in the generalised three-byte form. *)
Definition bytes (l : list nat) : string :=
  foldr (λ n s, String (ascii_of_nat n) s) EmptyString l.

Definition concat_strings (l : list string) : string :=
  foldr String.append EmptyString l.

(** The code points that the language counts as white space or as line
    terminator: TAB, LF, VT, FF, CR, SP, U+00A0, U+1680, U+2000 to U+200A,
    U+2028, U+2029, U+202F, U+205F, U+3000 and U+FEFF. *)
Definition whitespace : list string :=
  bytes <$>
    [ [9]; [10]; [11]; [12]; [13]; [32];
      [194; 160];
      [225; 154; 128];
      [226; 128; 128]; [226; 128; 129]; [226; 128; 130]; [226; 128; 131];
      [226; 128; 132]; [226; 128; 133]; [226; 128; 134]; [226; 128; 135];
      [226; 128; 136]; [226; 128; 137]; [226; 128; 138];
      [226; 128; 168]; [226; 128; 169]; [226; 128; 175];
      [226; 129; 159];
      [227; 128; 128];
      [239; 187; 191] ]%nat.

(** [strip_prefix w s]: what follows [w] in [s], when [s] starts with [w]. *)
Fixpoint strip_prefix (w s : string) : option string :=
  match w with
  | EmptyString => Some s
  | String a w' =>
      match s with
      | EmptyString => None
      | String b s' => if Ascii.eqb a b then strip_prefix w' s' else None
      end
  end.

Fixpoint strip_any (ws : list string) (s : string) : option string :=
  match ws with
  | [] => None
  | w :: ws' =>
      match strip_prefix w s with
      | Some rest => Some rest
      | None => strip_any ws' s
      end
  end.

(** One white space code point taken from the front of [s]. *)
Definition strip_ws (s : string) : option string := strip_any whitespace s.

Fixpoint trimStart_go (fuel : nat) (s : string) : string :=
  match fuel with
  | O => s
  | S fuel' =>
      match strip_ws s with
      | Some rest => trimStart_go fuel' rest
      | None => s
      end
  end.

Definition trimStart (s : string) : string :=
  trimStart_go (String.length s) s.

Definition is_whitespace (s : string) : bool :=
  bool_decide (s ∈ whitespace).

(** What is kept of [String c rest] is [c] before what is kept of [rest],
    unless that is one white space code point. *)
Fixpoint trimEnd (s : string) : string :=
  match s with
  | EmptyString => EmptyString
  | String c rest =>
      let kept := String c (trimEnd rest) in
      if is_whitespace kept then EmptyString else kept
  end.

(** [s.trim()] *)
Definition trim (s : string) : string := trimEnd (trimStart s).

(** [s.length] and [s.substring(0, n)] count UTF-16 code units: a code point
    of one, two or three bytes is one unit, a code point of four bytes is a
    pair of surrogates. *)
Fixpoint utf16_length (s : string) : nat :=
  match s with
  | EmptyString => 0
  | String a r1 =>
      let x := nat_of_ascii a in
      if (x <? 192)%nat then S (utf16_length r1)
      else
        match r1 with
        | EmptyString => 1
        | String _ r2 =>
            if (x <? 224)%nat then S (utf16_length r2)
            else
              match r2 with
              | EmptyString => 1
              | String _ r3 =>
                  if (x <? 240)%nat then S (utf16_length r3)
                  else
                    match r3 with
                    | EmptyString => 1
                    | String _ r4 => S (S (utf16_length r4))
                    end
              end
        end
  end%nat.

(** The first surrogate of the code point written in the four bytes
    [a b c d], in the generalised three-byte form: the surrogate is
    [0xD800 + (cp - 0x10000) / 0x400]. *)
Definition high_surrogate (a b c d : ascii) : string :=
  let cp := ((N_of_ascii a - 240) * 262144 + (N_of_ascii b - 128) * 4096 +
             (N_of_ascii c - 128) * 64 + (N_of_ascii d - 128))%N in
  let hi := (55296 + (cp - 65536) / 1024)%N in
  String (ascii_of_N 237)
    (String (ascii_of_N (128 + (hi / 64) mod 64))
       (String (ascii_of_N (128 + hi mod 64)) EmptyString)).

Fixpoint take_units (n : nat) (s : string) {struct s} : string :=
  match n with
  | O => EmptyString
  | S n' =>
      match s with
      | EmptyString => EmptyString
      | String a r1 =>
          let x := nat_of_ascii a in
          if (x <? 192)%nat then String a (take_units n' r1)
          else
            match r1 with
            | EmptyString => s
            | String b r2 =>
                if (x <? 224)%nat then String a (String b (take_units n' r2))
                else
                  match r2 with
                  | EmptyString => s
                  | String c r3 =>
                      if (x <? 240)%nat
                      then String a (String b (String c (take_units n' r3)))
                      else
                        match r3 with
                        | EmptyString => s
                        | String d r4 =>
                            match n' with
                            | O => high_surrogate a b c d
                            | S n'' =>
                                String a (String b (String c (String d
                                  (take_units n'' r4))))
                            end
                        end
                  end
            end
      end
  end.

(** [xs.join(sep)] *)
Fixpoint join (sep : string) (xs : list string) : string :=
  match xs with
  | [] => EmptyString
  | [x] => x
  | x :: rest => x ++ sep ++ join sep rest
  end.

(** *** [parseInt(s, 10)]

    Leading whitespace is skipped, one sign is accepted, and the longest
    run of decimal digits is read; [None] stands for [NaN]. *)

Definition digit_of (c : ascii) : option Z :=
  let n := nat_of_ascii c in
  if ((48 <=? n) && (n <=? 57))%nat then Some (Z.of_nat n - 48) else None.

Fixpoint read_digits (acc : Z) (s : string) : Z :=
  match s with
  | EmptyString => acc
  | String c rest =>
      match digit_of c with
      | Some d => read_digits (10 * acc + d) rest
      | None => acc
      end
  end.

Definition read_unsigned (s : string) : option Z :=
  match s with
  | EmptyString => None
  | String c _ =>
      match digit_of c with
      | Some _ => Some (read_digits 0 s)
      | None => None
      end
  end.

Definition parseInt (s : string) : option Z :=
  match trimStart s with
  | String "-" rest => Z.opp <$> read_unsigned rest
  | String "+" rest => read_unsigned rest
  | s' => read_unsigned s'
  end.

(** *** Exceptions *)

(** What a [catch (error)] clause can see of the thrown value: an [Error]
    with its [message], or any other value through [String(error)]. *)
Inductive Thrown : Type :=
| ErrorObject (message : string)
| OtherValue (as_string : string).

(** [error instanceof Error ? error.message : String(error)] *)
Definition message_of (e : Thrown) : string :=
  match e with
  | ErrorObject m => m
  | OtherValue s => s
  end.

Inductive Res (A : Type) : Type :=
| Ok (a : A)
| Throw (e : Thrown).
Global Arguments Ok {A} a.
Global Arguments Throw {A} e.

Definition try_catch {A} (body : Res A) (handler : Thrown → Res A) : Res A :=
  match body with
  | Ok a => Ok a
  | Throw e => handler e
  end.

(** *** [JSON.stringify] on parsed values *)

Definition hex_digit (n : nat) : ascii :=
  ascii_of_nat (if (n <? 10)%nat then 48 + n else 87 + n).

Definition dquote : ascii := ascii_of_nat 34.
Definition backslash : ascii := ascii_of_nat 92.

Definition escape_char (c : ascii) : string :=
  let n := nat_of_ascii c in
  if (n =? 34)%nat then String backslash (String dquote EmptyString)
  else if (n =? 92)%nat then String backslash (String backslash EmptyString)
  else if (n =? 8)%nat then String backslash "b"
  else if (n =? 9)%nat then String backslash "t"
  else if (n =? 10)%nat then String backslash "n"
  else if (n =? 12)%nat then String backslash "f"
  else if (n =? 13)%nat then String backslash "r"
  else if (n <? 32)%nat then
    String backslash "u00" ++
    String (hex_digit (n / 16)) (String (hex_digit (n mod 16)) EmptyString)
  else String c EmptyString.

(** A surrogate without its partner is written as a [\u] escape. *)
Definition escape_surrogate (b c : ascii) : string :=
  let v := ((nat_of_ascii b - 128) * 64 + (nat_of_ascii c - 128))%nat in
  String backslash "ud" ++
  String (hex_digit (v / 256))
    (String (hex_digit ((v / 16) mod 16))
       (String (hex_digit (v mod 16)) EmptyString)).

Fixpoint escape_string (s : string) : string :=
  match s with
  | EmptyString => EmptyString
  | String a rest =>
      match rest with
      | String b (String c rest') =>
          if ((nat_of_ascii a =? 237) && (160 <=? nat_of_ascii b))%nat
          then escape_surrogate b c ++ escape_string rest'
          else escape_char a ++ escape_string rest
      | _ => escape_char a ++ escape_string rest
      end
  end.

Definition quote (s : string) : string :=
  String dquote (escape_string s ++ String dquote EmptyString).

(** [JSON.stringify(v)]; [None] is the [undefined] that the function
    returns for a value without a JSON image.  Such a value is written
    [null] inside an array and skipped inside an object. *)
Fixpoint stringify (v : JsValue) : option string :=
  match v with
  | JUndefined => None
  | JNull => Some "null"
  | JBool b => Some (if b then "true" else "false")
  | JNum n => Some (String_of_number n)
  | JStr s => Some (quote s)
  | JArr xs =>
      Some ("[" ++ join "," (map (λ x, default "null" (stringify x)) xs) ++ "]")
  | JObj fields =>
      Some ("{" ++
            join "," (omap (λ kv, (λ t, quote kv.1 ++ ":" ++ t) <$> stringify kv.2)
                           fields) ++
            "}")
  end.

(** [String(v)], which a template literal applies to a value: an array
    joins its elements, writing nothing for [null] and [undefined]. *)
Fixpoint ToString (v : JsValue) : string :=
  match v with
  | JUndefined => "undefined"
  | JNull => "null"
  | JBool b => if b then "true" else "false"
  | JNum n => String_of_number n
  | JStr s => s
  | JArr xs =>
      join "," (map (λ x, match x with
                          | JUndefined | JNull => EmptyString
                          | _ => ToString x
                          end) xs)
  | JObj _ => "[object Object]"
  end.

(** [o[key] = text] on an object literal whose properties hold strings.
    The name [__proto__] is not stored: it reaches the setter inherited from
    [Object.prototype], which ignores a string. *)
Definition assign_string (o : gmap string string) (key text : string)
  : gmap string string :=
  if String.eqb key "__proto__" then o else <[key := text]> o.

(** *** Monadic structure of [Res] *)

Global Instance Res_ret : MRet Res := λ A a, Ok a.
Global Instance Res_bind : MBind Res := λ A B k m,
  match m with
  | Ok a => k a
  | Throw e => Throw e
  end.

(** *** Runtime services

    [JSON.parse] and the WHATWG [URL] constructor belong to the runtime, not
    to the repository.  The program is written against this interface; a
    [Throw] is the [SyntaxError] or [TypeError] the service raises. *)

Record URL : Type := {
  protocol : string;
  hostname : string;
  port : string;
  pathname : string;
  search : string;
  searchParams : list (string * string);
}.

(** [url.searchParams.get(name)]: the first value under [name], else
    [null]. *)
Definition searchParams_get (name : string) (url : URL) : option string :=
  snd <$> List.find (λ kv, String.eqb kv.1 name) (searchParams url).

(** A relational operator converts an operand that is not a number with
    [ToNumber]; the conversion of a string, an array or an object belongs to
    the runtime as well: [ToNumber_compare v k] is the order of
    [ToNumber(v)] and the integer [k], and [None] when the conversion gives
    [NaN]. *)
Class Runtime : Type := {
  JSON_parse : string → Res JsValue;
  URL_new : string → Res URL;
  ToNumber_compare : JsValue → Z → option comparison;
}.

Section Relational.
Context `{!Runtime}.

Definition compare_number (v : JsValue) (k : Z) : option comparison :=
  match v with
  | JNum n => Some (n ?= k)
  | JNull => Some (0 ?= k)
  | JBool b => Some ((if b then 1 else 0) ?= k)
  | JUndefined => None
  | _ => ToNumber_compare v k
  end.

(** [v < k] *)
Definition less_than (v : JsValue) (k : Z) : bool :=
  match compare_number v k with
  | Some Lt => true
  | _ => false
  end.

(** [v >= k] *)
Definition at_least (v : JsValue) (k : Z) : bool :=
  match compare_number v k with
  | Some Eq | Some Gt => true
  | _ => false
  end.

End Relational.

End Js.

(** ** GenericFunctions.ts *)

Module GenericFunctions.
Import Js.

Section WithRuntime.
Context `{!Runtime}.

Record BearerResult : Type := {
  token : option string;
  cleanUrl : string;
}.

(** [if (bearer)] on a [string | null]. *)
Definition nonempty (s : string) : bool := negb (String.eqb s EmptyString).

Definition extractBearerToken (uploadUrl : string) : BearerResult :=
  let fallthrough := {| token := None; cleanUrl := uploadUrl |} in
  match URL_new uploadUrl with
  | Ok url =>
      match searchParams_get "bearer" url with
      | Some bearer =>
          if nonempty bearer
          then {| token := Some bearer; cleanUrl := uploadUrl |}
          else fallthrough
      | None => fallthrough
      end
  | Throw _ => fallthrough
  end.

(** One turn of the loop
    [for (const [key, value] of Object.entries(o))]:
    a string or a number is stored as [String(value)], anything else is
    skipped. *)
Definition store_entry (result : gmap string string) (kv : string * JsValue)
  : gmap string string :=
  match kv.2 with
  | JStr s => assign_string result kv.1 s
  | JNum n => assign_string result kv.1 (String_of_number n)
  | _ => result
  end.

Definition collect (o : JsValue) : gmap string string :=
  foldl store_entry ∅ (Object_entries o).

(** [typeof v === 'object' && v !== null] *)
Definition is_object (v : JsValue) : bool :=
  bool_decide (typeof v = TObject) && negb (is_null v).

Definition parseHeaders (headersParam : JsValue) : Res (gmap string string) :=
  if negb (truthy headersParam) then Ok ∅
  else
    match headersParam with
    | JStr s =>
        early ← try_catch
                  (parsed ← JSON_parse s;
                   if is_object parsed
                   then Ok (Some (collect parsed))
                   else Ok None)
                  (λ _, Ok None);
        match early with
        | Some result => Ok result
        | None => Ok ∅
        end
    | _ =>
        if is_object headersParam
        then Ok (collect headersParam)
        else Ok ∅
    end.

End WithRuntime.
End GenericFunctions.

(** ** What the two operations share

    Both [execute] functions read the same seven node parameters, open with
    the same validation and header preparation, and end in the same
    [catch] clause.  The shared statements are given once here. *)

Module Operation.
Import Js GenericFunctions.

Inductive Method : Type := POST | PUT.

Definition method_name (m : Method) : string :=
  match m with POST => "POST" | PUT => "PUT" end.

(** The type [string | number] of the [contentLength] parameter. *)
Inductive StringOrNumber : Type :=
| AsString (s : string)
| AsNumber (n : Z).

Record Params : Type := {
  downloadUrl : option string;
  uploadUrl : option string;
  contentLength : StringOrNumber;
  method : Method;
  downloadHeadersParam : JsValue;
  uploadHeadersParam : JsValue;
  throwOnError : bool;
}.

Record INodeExecutionData : Type := {
  json : gmap string JsValue;
  pairedItem : nat;
}.

(** *** Requests sent, and the monad of an invocation

    An invocation threads the log of the HTTP requests it has issued and
    may end in a raised error. *)

Inductive Request : Type :=
| Download (url : string) (headers : gmap string string)
| Upload (m : Method) (url : string) (headers : gmap string string).

Definition is_upload (r : Request) : bool :=
  match r with Upload _ _ _ => true | Download _ _ => false end.

Definition M (A : Type) : Type := list Request → list Request * Res A.

Global Instance M_ret : MRet M := λ A a log, (log, Ok a).
Global Instance M_bind : MBind M := λ A B k m log,
  match m log with
  | (log', Ok a) => k a log'
  | (log', Throw e) => (log', Throw e)
  end.

Definition throw {A} (e : Thrown) : M A := λ log, (log, Throw e).
Definition lift {A} (r : Res A) : M A := λ log, (log, r).
Definition emit (r : Request) : M unit := λ log, ((log ++ [r])%list, Ok tt).

Definition try_catch_M {A} (body : M A) (handler : Thrown → M A) : M A :=
  λ log,
    match body log with
    | (log', Ok a) => (log', Ok a)
    | (log', Throw e) => handler e log'
    end.

Definition run {A} (m : M A) : list Request * Res A := m [].

(** *** Validation *)

(** [!url || url.trim() === ''] *)
Definition blank (url : option string) : bool :=
  match url with
  | None => true
  | Some s => negb (nonempty s) || String.eqb (trim s) EmptyString
  end.

Definition download_required : string :=
  "Download URL is required and cannot be empty".
Definition upload_required : string :=
  "Upload URL is required and cannot be empty".

(** [if (!url || url.trim() === '') throw new Error(message)] *)
Definition required (url : option string) (message : string) : M string :=
  match url with
  | Some s => if blank url then throw (ErrorObject message) else mret s
  | None => throw (ErrorObject message)
  end.

(** *** Header preparation *)

(** Truthiness of [headers[key]]. *)
Definition header_set (headers : gmap string string) (key : string) : bool :=
  match headers !! key with
  | Some v => nonempty v
  | None => false
  end.

(** [{ Accept: ..., ...downloadHeaders }]: the spread entries win. *)
Definition finalDownloadHeaders (downloadHeaders : gmap string string)
  : gmap string string :=
  downloadHeaders ∪ {[ "Accept" := "*/*" ]}.

Definition initialUploadHeaders (uploadHeaders : gmap string string)
  : gmap string string :=
  uploadHeaders ∪ {[ "Content-Type" := "application/octet-stream" ]}.

(** [if (token && !h['Authorization'] && !h['authorization'])] *)
Definition add_bearer (token : option string) (h : gmap string string)
  : gmap string string :=
  match token with
  | Some t =>
      if nonempty t && negb (header_set h "Authorization")
                    && negb (header_set h "authorization")
      then <[ "Authorization" := "Bearer " ++ t ]> h
      else h
  | None => h
  end.

Definition sn_truthy (v : StringOrNumber) : bool :=
  match v with
  | AsString s => nonempty s
  | AsNumber n => negb (n =? 0)
  end.

(** [typeof v === 'number' ? v : parseInt(v, 10)] *)
Definition length_of (v : StringOrNumber) : option Z :=
  match v with
  | AsNumber n => Some n
  | AsString s => parseInt s
  end.

(** [if (!isNaN(length) && length > 0) h['Content-Length'] = String(length)] *)
Definition put_length (v : StringOrNumber) (h : gmap string string)
  : gmap string string :=
  match length_of v with
  | Some length =>
      if 0 <? length
      then <[ "Content-Length" := String_of_number length ]> h
      else h
  | None => h
  end.

(** [if (contentLength) { ... }] before the transfer starts. *)
Definition add_explicit_length (contentLength : StringOrNumber)
    (h : gmap string string) : gmap string string :=
  if sn_truthy contentLength then put_length contentLength h else h.

(** [contentLength || responseHeaders['content-length']], then
    [if (actualContentLength && !h['Content-Length']) { ... }]. *)
Definition add_detected_length (contentLength : StringOrNumber)
    (response_length : option string) (h : gmap string string)
  : gmap string string :=
  let actualContentLength :=
    if sn_truthy contentLength then Some contentLength
    else AsString <$> response_length in
  match actualContentLength with
  | Some a =>
      if sn_truthy a && negb (header_set h "Content-Length")
      then put_length a h
      else h
  | None => h
  end.

Section WithRuntime.
Context `{!Runtime}.

(** The upload headers as they stand when the [try] block is entered. *)
Definition preparedUploadHeaders (uploadUrl : string)
    (uploadHeaders : gmap string string) (contentLength : StringOrNumber)
  : gmap string string :=
  add_explicit_length contentLength
    (add_bearer (token (extractBearerToken uploadUrl))
       (initialUploadHeaders uploadHeaders)).
End WithRuntime.

(** *** Status checks and messages *)

(** [code < 200 || code >= 300] *)
Definition failed_status (code : Z) : bool := (code <? 200) || (300 <=? code).

Definition download_failed_message (code : Z) (downloadUrl : string) : string :=
  "Download failed with HTTP " ++ String_of_number code ++ " from " ++
  downloadUrl ++
  ". Please verify the download URL is accessible and returns a successful response.".

Definition upload_failed_message (code : Z) (uploadUrl : string) (m : Method)
  : string :=
  "Upload failed with HTTP " ++ String_of_number code ++ " to " ++ uploadUrl ++
  ". " ++
  "Please verify the upload URL is correct, authentication is valid, and the endpoint accepts " ++
  method_name m ++ " requests.".

(** [code || 200] on a [number | undefined]. *)
Definition status_or_200 (code : option Z) : Z :=
  match code with
  | Some c => if c =? 0 then 200 else c
  | None => 200
  end.

Definition js_status (code : option Z) : JsValue :=
  match code with
  | Some c => JNum c
  | None => JUndefined
  end.

(** *** The [catch] clause *)

Definition enhance (errorMessage downloadUrl uploadUrl : string) : string :=
  if includes "Download URL" errorMessage || includes "Upload URL" errorMessage
  then errorMessage
  else "File transfer failed: " ++ errorMessage ++ ". Download URL: " ++
       downloadUrl ++ ", Upload URL: " ++ uploadUrl.

Definition caught_record (enhancedMessage downloadUrl uploadUrl : string)
  : gmap string JsValue :=
  list_to_map [ ("error", JStr enhancedMessage);
                ("success", JBool false);
                ("downloadUrl", JStr downloadUrl);
                ("uploadUrl", JStr uploadUrl) ].

Definition on_error (throwOnError : bool) (itemIndex : nat)
    (downloadUrl uploadUrl : string) (error : Thrown) : M INodeExecutionData :=
  let errorMessage := message_of error in
  let enhancedMessage := enhance errorMessage downloadUrl uploadUrl in
  if throwOnError
  then throw (ErrorObject enhancedMessage)
  else mret {| json := caught_record enhancedMessage downloadUrl uploadUrl;
               pairedItem := itemIndex |}.

(** The record returned for a failed upload status when [throwOnError] is
    off. *)
Definition upload_failure_record (errorMessage : string)
    (uploadStatusCode : Z) (downloadStatusCode : option Z)
    (uploadUrl downloadUrl : string) : gmap string JsValue :=
  list_to_map [ ("error", JStr errorMessage);
                ("uploadStatus", JNum uploadStatusCode);
                ("downloadStatus", js_status downloadStatusCode);
                ("uploadUrl", JStr uploadUrl);
                ("downloadUrl", JStr downloadUrl) ].

End Operation.

(** ** transferFile.operation.ts: download with the native client *)

Module TransferFile.
Import Js GenericFunctions Operation.

Inductive Client : Type := http | https.

Record DownloadOptions : Type := {
  opt_hostname : string;
  opt_port : StringOrNumber;
  opt_path : string;
  opt_headers : gmap string string;
}.

(** What the native request delivers: the response callback with the
    status code and headers of the incoming message, or the [error]
    event. *)
Inductive Incoming : Type :=
| Responded (statusCode : option Z) (headers : gmap string string)
| Errored (message : string).

(** [helpers.request] with [resolveWithFullResponse]. *)
Record FullResponse : Type := {
  statusCode : option Z;
  body : JsValue;
}.

Record Host : Type := {
  client_request : Client → DownloadOptions → Incoming;
  helpers_request :
    Method → string → gmap string string → Res FullResponse;
}.

Section WithRuntime.
Context `{!Runtime}.
Variable host : Host.

Definition downloadOptions (downloadUrlObj : URL)
    (headers : gmap string string) : DownloadOptions :=
  {| opt_hostname := hostname downloadUrlObj;
     opt_port :=
       if nonempty (port downloadUrlObj)
       then AsString (port downloadUrlObj)
       else AsNumber (if String.eqb (protocol downloadUrlObj) "https:"
                      then 443 else 80);
     opt_path := pathname downloadUrlObj ++ search downloadUrlObj;
     opt_headers := headers |}.

(** [downloadUrlObj.protocol === 'https:' ? https : http] *)
Definition client_of (downloadUrlObj : URL) : Client :=
  if String.eqb (protocol downloadUrlObj) "https:" then https else http.

(** The promise around [downloadClient.request]: it resolves with the
    status code and the upload headers completed by the detected length,
    or rejects. *)
Definition download (p : Params) (downloadUrl : string)
    (finalDownloadHeaders prepared : gmap string string)
  : M (Z * gmap string string) :=
  downloadUrlObj ← lift (URL_new downloadUrl);
  let downloadClient := client_of downloadUrlObj in
  _ ← emit (Download downloadUrl finalDownloadHeaders);
  match client_request host downloadClient
          (downloadOptions downloadUrlObj finalDownloadHeaders) with
  | Responded code headers =>
      let statusCode := default 0 code in
      if failed_status statusCode
      then throw (ErrorObject (download_failed_message statusCode downloadUrl))
      else mret (statusCode,
                 add_detected_length (contentLength p)
                   (headers !! "content-length") prepared)
  | Errored message =>
      throw (ErrorObject ("Download request failed: " ++ message))
  end.

(** [result.uploadResponse], when the response has a body. *)
Definition uploadResponse_field (body : JsValue) : option JsValue :=
  match body with
  | JUndefined => None
  | JStr s =>
      Some (match JSON_parse s with
            | Ok parsed => parsed
            | Throw _ => body
            end)
  | _ => Some body
  end.

Definition success_record (downloadStatusCode : Z)
    (uploadStatusCode : option Z) (body : JsValue) : gmap string JsValue :=
  let result : gmap string JsValue :=
    list_to_map [ ("success", JBool true);
                  ("downloadStatus", JNum (status_or_200 (Some downloadStatusCode)));
                  ("uploadStatus", JNum (status_or_200 uploadStatusCode)) ] in
  match uploadResponse_field body with
  | Some v => <[ "uploadResponse" := v ]> result
  | None => result
  end.

(** The body of the [try] block. *)
Definition transfer (p : Params) (itemIndex : nat)
    (downloadUrl uploadUrl : string)
    (finalDownloadHeaders prepared : gmap string string)
  : M INodeExecutionData :=
  '(downloadStatusCode, finalUploadHeaders) ←
    download p downloadUrl finalDownloadHeaders prepared;
  _ ← emit (Upload (method p) uploadUrl finalUploadHeaders);
  uploadResponse ←
    lift (helpers_request host (method p) uploadUrl finalUploadHeaders);
  let uploadStatusCode := statusCode uploadResponse in
  let succeed :=
    mret {| json := success_record downloadStatusCode uploadStatusCode
                      (body uploadResponse);
            pairedItem := itemIndex |} in
  match uploadStatusCode with
  | Some code =>
      if failed_status code then
        let errorMessage := upload_failed_message code uploadUrl (method p) in
        if throwOnError p
        then throw (ErrorObject errorMessage)
        else mret {| json := upload_failure_record errorMessage code
                               (Some downloadStatusCode) uploadUrl downloadUrl;
                     pairedItem := itemIndex |}
      else succeed
  | None => succeed
  end.

Definition execute (p : Params) (itemIndex : nat) : M INodeExecutionData :=
  downloadUrl ← required (downloadUrl p) download_required;
  uploadUrl ← required (uploadUrl p) upload_required;
  downloadHeaders ← lift (parseHeaders (downloadHeadersParam p));
  uploadHeaders ← lift (parseHeaders (uploadHeadersParam p));
  let prepared :=
    preparedUploadHeaders uploadUrl uploadHeaders (contentLength p) in
  try_catch_M
    (transfer p itemIndex downloadUrl uploadUrl
       (finalDownloadHeaders downloadHeaders) prepared)
    (on_error (throwOnError p) itemIndex downloadUrl uploadUrl).

End WithRuntime.
End TransferFile.

(** ** The older operation: both legs through the request helpers *)

Module HelperTransfer.
Import Js GenericFunctions Operation.

(** The body of the download response: a [Buffer], a readable stream, or a
    value the helper has already parsed. *)
Inductive ResponseBody : Type :=
| BufferBody (bytes : string)
| StreamBody
| ParsedBody (v : JsValue).

Record DownloadResponse : Type := {
  statusCode : option Z;
  headers : option (gmap string string);
  body : ResponseBody;
}.

Record Host : Type := {
  helpers_request : string → gmap string string → Res DownloadResponse;
  helpers_httpRequest :
    Method → string → gmap string string → Res JsValue;
}.

(** [Object.keys(body).slice(0, 5)] *)
Definition bodyKeys (v : JsValue) : list string := take 5 (Object_keys v).

(** [JSON.stringify(body).substring(0, 200)] *)
Definition bodyPreview (v : JsValue) : string :=
  take_units 200 (default "undefined" (stringify v)).

(** The message for a body that is an object without [pipe]. *)
Definition object_not_streamable (downloadUrl : string) (v : JsValue) : string :=
  "Download response from " ++ downloadUrl ++ " is not a streamable format. " ++
  "The response body type is: " ++ typeof_name (typeof v) ++ ". " ++
  (match bodyKeys v with
   | [] => EmptyString
   | keys => "Response body keys: " ++ join ", " keys ++ ". "
   end) ++
  "Response preview: " ++ bodyPreview v ++
  (if (200 <=? utf16_length (bodyPreview v))%nat then "..." else EmptyString) ++
  ". " ++
  "This usually means the server returned JSON/text instead of binary data. " ++
  "Please ensure the download URL returns a binary stream. " ++
  "You may need to add headers like 'Accept: */*' to prevent automatic parsing.".

(** [body?.constructor?.name || 'unknown'] *)
Definition constructor_name (v : JsValue) : string :=
  match v with
  | JUndefined | JNull => "unknown"
  | JBool _ => "Boolean"
  | JNum _ => "Number"
  | JStr _ => "String"
  | JArr _ => "Array"
  | JObj _ => "Object"
  end.

(** The message of the final check. *)
Definition value_not_streamable (downloadUrl : string) (v : JsValue) : string :=
  "Download response from " ++ downloadUrl ++ " is not a streamable format. " ++
  "The response body type is: " ++ typeof_name (typeof v) ++
  ", constructor: " ++ constructor_name v ++ ". " ++
  "Please ensure the download URL returns a binary stream.".

(** From [let downloadStream = downloadResponse.body] to the final check:
    a buffer is wrapped by [Readable.from], a stream is used as it is, and
    a parsed value, which has no [pipe] method, raises. *)
Definition obtain_stream (downloadUrl : string) (b : ResponseBody) : Res unit :=
  match b with
  | BufferBody _ => Ok tt
  | StreamBody => Ok tt
  | ParsedBody v =>
      if is_object v
      then Throw (ErrorObject (object_not_streamable downloadUrl v))
      else Throw (ErrorObject (value_not_streamable downloadUrl v))
  end.

(** ['statusCode' in uploadResponse ? uploadResponse.statusCode : undefined]:
    the field is read whatever it holds. *)
Definition statusCode_of (uploadResponse : JsValue) : JsValue :=
  match uploadResponse with
  | JObj fields =>
      match List.find (λ kv, String.eqb kv.1 "statusCode") fields with
      | Some (_, v) => v
      | None => JUndefined
      end
  | _ => JUndefined
  end.

(** [v !== undefined] *)
Definition defined (v : JsValue) : bool :=
  match v with JUndefined => false | _ => true end.

(** [v || 200] *)
Definition value_or_200 (v : JsValue) : JsValue :=
  if truthy v then v else JNum 200.

Definition upload_failed_text (status uploadUrl : string) (m : Method)
  : string :=
  "Upload failed with HTTP " ++ status ++ " to " ++ uploadUrl ++
  ". " ++
  "Please verify the upload URL is correct, authentication is valid, and the endpoint accepts " ++
  method_name m ++ " requests.".

Definition download_failure_record (errorMessage : string)
    (downloadStatusCode : Z) (downloadUrl : string) : gmap string JsValue :=
  list_to_map [ ("error", JStr errorMessage);
                ("downloadStatus", JNum downloadStatusCode);
                ("downloadUrl", JStr downloadUrl) ].

Definition upload_refused_record (errorMessage : string)
    (uploadStatusCode : JsValue) (downloadStatusCode : option Z)
    (uploadUrl downloadUrl : string) : gmap string JsValue :=
  list_to_map [ ("error", JStr errorMessage);
                ("uploadStatus", uploadStatusCode);
                ("downloadStatus", js_status downloadStatusCode);
                ("uploadUrl", JStr uploadUrl);
                ("downloadUrl", JStr downloadUrl) ].

Definition success_record (downloadStatusCode : option Z)
    (uploadStatusCode uploadResponse : JsValue) : gmap string JsValue :=
  list_to_map [ ("success", JBool true);
                ("downloadStatus", JNum (status_or_200 downloadStatusCode));
                ("uploadStatus", value_or_200 uploadStatusCode);
                ("uploadResponse", uploadResponse) ].

Section WithRuntime.
Context `{!Runtime}.
Variable host : Host.

(** [v < 200 || v >= 300] *)
Definition failed_value (v : JsValue) : bool :=
  less_than v 200 || at_least v 300.

(** The rest of the [try] block once the download status is accepted. *)
Definition forward (p : Params) (itemIndex : nat)
    (downloadUrl uploadUrl : string) (prepared : gmap string string)
    (downloadResponse : DownloadResponse) : M INodeExecutionData :=
  let downloadStatusCode := statusCode downloadResponse in
  let responseHeaders := default ∅ (headers downloadResponse) in
  let finalUploadHeaders :=
    add_detected_length (contentLength p)
      (responseHeaders !! "content-length") prepared in
  _ ← lift (obtain_stream downloadUrl (body downloadResponse));
  _ ← emit (Upload (method p) uploadUrl finalUploadHeaders);
  uploadResponse ←
    lift (helpers_httpRequest host (method p) uploadUrl finalUploadHeaders);
  let uploadStatusCode := statusCode_of uploadResponse in
  if defined uploadStatusCode && failed_value uploadStatusCode then
    let errorMessage :=
      upload_failed_text (ToString uploadStatusCode) uploadUrl (method p) in
    if throwOnError p
    then throw (ErrorObject errorMessage)
    else mret {| json := upload_refused_record errorMessage uploadStatusCode
                           downloadStatusCode uploadUrl downloadUrl;
                 pairedItem := itemIndex |}
  else
    mret {| json := success_record downloadStatusCode uploadStatusCode
                      uploadResponse;
            pairedItem := itemIndex |}.

(** The body of the [try] block. *)
Definition transfer (p : Params) (itemIndex : nat)
    (downloadUrl uploadUrl : string)
    (finalDownloadHeaders prepared : gmap string string)
  : M INodeExecutionData :=
  _ ← emit (Download downloadUrl finalDownloadHeaders);
  downloadResponse ←
    lift (helpers_request host downloadUrl finalDownloadHeaders);
  let continue :=
    forward p itemIndex downloadUrl uploadUrl prepared downloadResponse in
  match statusCode downloadResponse with
  | Some code =>
      if failed_status code then
        let errorMessage := download_failed_message code downloadUrl in
        if throwOnError p
        then throw (ErrorObject errorMessage)
        else mret {| json := download_failure_record errorMessage code
                               downloadUrl;
                     pairedItem := itemIndex |}
      else continue
  | None => continue
  end.

Definition execute (p : Params) (itemIndex : nat) : M INodeExecutionData :=
  downloadUrl ← required (downloadUrl p) download_required;
  uploadUrl ← required (uploadUrl p) upload_required;
  downloadHeaders ← lift (parseHeaders (downloadHeadersParam p));
  uploadHeaders ← lift (parseHeaders (uploadHeadersParam p));
  let prepared :=
    preparedUploadHeaders uploadUrl uploadHeaders (contentLength p) in
  try_catch_M
    (transfer p itemIndex downloadUrl uploadUrl
       (finalDownloadHeaders downloadHeaders) prepared)
    (on_error (throwOnError p) itemIndex downloadUrl uploadUrl).

End WithRuntime.
End HelperTransfer.

(** ** A reference runtime

    An executable instance of [Runtime], used to run the program on concrete
    inputs: a recursive-descent reader for the integer fragment of JSON and a
    reader for hierarchical URLs.  The general results below hold for every
    instance of [Runtime], this one included. *)

Module Reference.
Import Js.

Definition is_json_ws (c : ascii) : bool :=
  let n := nat_of_ascii c in
  ((n =? 32) || (n =? 9) || (n =? 10) || (n =? 13))%nat.

Fixpoint skip_ws (s : string) : string :=
  match s with
  | String c rest => if is_json_ws c then skip_ws rest else s
  | EmptyString => EmptyString
  end.

(** [expect lit s]: [s] without its prefix [lit]. *)
Fixpoint expect (lit s : string) : option string :=
  match lit, s with
  | EmptyString, _ => Some s
  | String a lit', String b s' =>
      if Ascii.eqb a b then expect lit' s' else None
  | _, EmptyString => None
  end.

Definition hex_value (c : ascii) : option nat :=
  let n := nat_of_ascii c in
  if ((48 <=? n) && (n <=? 57))%nat then Some (n - 48)%nat
  else if ((97 <=? n) && (n <=? 102))%nat then Some (n - 87)%nat
  else if ((65 <=? n) && (n <=? 70))%nat then Some (n - 55)%nat
  else None.

Definition simple_escape (c : ascii) : option ascii :=
  let n := nat_of_ascii c in
  if (n =? 34)%nat then Some dquote
  else if (n =? 92)%nat then Some backslash
  else if (n =? 47)%nat then Some "/"%char
  else if (n =? 98)%nat then Some (ascii_of_nat 8)
  else if (n =? 102)%nat then Some (ascii_of_nat 12)
  else if (n =? 110)%nat then Some (ascii_of_nat 10)
  else if (n =? 114)%nat then Some (ascii_of_nat 13)
  else if (n =? 116)%nat then Some (ascii_of_nat 9)
  else None.

(** The characters of a string literal after its opening quote, and the
    rest of the input after the closing quote. *)
Fixpoint read_string (s : string) : option (string * string) :=
  match s with
  | EmptyString => None
  | String c rest =>
      if Ascii.eqb c dquote then Some (EmptyString, rest)
      else if Ascii.eqb c backslash then
        match rest with
        | String e rest' =>
            match simple_escape e with
            | Some d =>
                '(str, out) ← read_string rest'; Some (String d str, out)
            | None => None
            end
        | EmptyString => None
        end
      else if (nat_of_ascii c <? 32)%nat then None
      else '(str, out) ← read_string rest; Some (String c str, out)
  end.

Fixpoint drop_digits (s : string) : string :=
  match s with
  | String c rest =>
      match digit_of c with Some _ => drop_digits rest | None => s end
  | EmptyString => EmptyString
  end.

(** An integer literal; a fraction or an exponent is outside the
    fragment. *)
Definition read_integer (s : string) : option (Z * string) :=
  let '(negative, digits) :=
    match s with
    | String "-" rest => (true, rest)
    | _ => (false, s)
    end in
  match read_unsigned digits with
  | Some n =>
      match digits, drop_digits digits with
      | String "0" (String d _), _ =>
          match digit_of d with
          | Some _ => None
          | None =>
              if Ascii.eqb d "." || Ascii.eqb d "e" || Ascii.eqb d "E"
              then None else Some (0, drop_digits digits)
          end
      | _, String "." _ | _, String "e" _ | _, String "E" _ => None
      | _, out => Some (if negative then - n else n, out)
      end
  | None => None
  end.

(** [o[key] = v] on an object kept as its list of entries. *)
Fixpoint assign (key : string) (v : JsValue) (o : list (string * JsValue))
  : list (string * JsValue) :=
  match o with
  | [] => [(key, v)]
  | (k, w) :: rest =>
      if String.eqb k key then (k, v) :: rest else (k, w) :: assign key v rest
  end.

Fixpoint read_value (fuel : nat) (s : string) : option (JsValue * string) :=
  match fuel with
  | O => None
  | S fuel' =>
      match skip_ws s with
      | String "n" rest => out ← expect "ull" rest; Some (JNull, out)
      | String "t" rest => out ← expect "rue" rest; Some (JBool true, out)
      | String "f" rest => out ← expect "alse" rest; Some (JBool false, out)
      | String "[" rest =>
          match skip_ws rest with
          | String "]" out => Some (JArr [], out)
          | _ => '(xs, out) ← read_elements fuel' rest; Some (JArr xs, out)
          end
      | String "{" rest =>
          match skip_ws rest with
          | String "}" out => Some (JObj [], out)
          | _ =>
              '(members, out) ← read_members fuel' rest;
              Some (JObj (foldl (λ o kv, assign kv.1 kv.2 o) [] members), out)
          end
      | String c rest as s' =>
          if Ascii.eqb c dquote
          then '(str, out) ← read_string rest; Some (JStr str, out)
          else '(n, out) ← read_integer s'; Some (JNum n, out)
      | EmptyString => None
      end
  end
with read_elements (fuel : nat) (s : string)
  : option (list JsValue * string) :=
  match fuel with
  | O => None
  | S fuel' =>
      '(v, rest) ← read_value fuel' s;
      match skip_ws rest with
      | String "," rest' =>
          '(vs, out) ← read_elements fuel' rest'; Some (v :: vs, out)
      | String "]" out => Some ([v], out)
      | _ => None
      end
  end
with read_members (fuel : nat) (s : string)
  : option (list (string * JsValue) * string) :=
  match fuel with
  | O => None
  | S fuel' =>
      match skip_ws s with
      | String c rest =>
          if Ascii.eqb c dquote then
            '(key, rest1) ← read_string rest;
            match skip_ws rest1 with
            | String ":" rest2 =>
                '(v, rest3) ← read_value fuel' rest2;
                match skip_ws rest3 with
                | String "," rest4 =>
                    '(ms, out) ← read_members fuel' rest4;
                    Some ((key, v) :: ms, out)
                | String "}" out => Some ([(key, v)], out)
                | _ => None
                end
            | _ => None
            end
          else None
      | EmptyString => None
      end
  end.

Definition JSON_parse (s : string) : Res JsValue :=
  match read_value (2 * String.length s + 2) s with
  | Some (v, rest) =>
      match skip_ws rest with
      | EmptyString => Ok v
      | _ => Throw (ErrorObject "Unexpected non-whitespace character after JSON")
      end
  | None => Throw (ErrorObject "Unexpected token in JSON")
  end.

(** *** URLs *)

(** [break_at stop s]: the prefix of [s] before the first character
    satisfying [stop], and the rest from that character on. *)
Fixpoint break_at (stop : ascii → bool) (s : string) : string * string :=
  match s with
  | EmptyString => (EmptyString, EmptyString)
  | String c rest =>
      if stop c then (EmptyString, s)
      else let '(a, b) := break_at stop rest in (String c a, b)
  end.

Definition is_char (x c : ascii) : bool := Ascii.eqb x c.

Definition is_alpha (c : ascii) : bool :=
  let n := nat_of_ascii c in
  ((65 <=? n) && (n <=? 90) || (97 <=? n) && (n <=? 122))%nat.

Definition is_scheme_char (c : ascii) : bool :=
  is_alpha c || bool_decide (is_Some (digit_of c)) ||
  is_char "+" c || is_char "-" c || is_char "." c.

Fixpoint all_chars (ok : ascii → bool) (s : string) : bool :=
  match s with
  | EmptyString => true
  | String c rest => ok c && all_chars ok rest
  end.

(** Decoding of a query component: [+] is a space and [%XY] is a byte. *)
Fixpoint decode (s : string) : string :=
  match s with
  | EmptyString => EmptyString
  | String c rest =>
      if is_char "+" c then String " " (decode rest)
      else if is_char "%" c then
        match rest with
        | String x (String y rest') =>
            match hex_value x, hex_value y with
            | Some a, Some b => String (ascii_of_nat (16 * a + b)) (decode rest')
            | _, _ => String c (decode rest)
            end
        | _ => String c (decode rest)
        end
      else String c (decode rest)
  end.

Fixpoint split_on (fuel : nat) (sep : ascii) (s : string) : list string :=
  match fuel with
  | O => [s]
  | S fuel' =>
      match break_at (is_char sep) s with
      | (a, String _ rest) => a :: split_on fuel' sep rest
      | (a, EmptyString) => [a]
      end
  end.

Definition pair_of (component : string) : string * string :=
  match break_at (is_char "=") component with
  | (name, String _ value) => (decode name, decode value)
  | (name, EmptyString) => (decode name, EmptyString)
  end.

Definition query_pairs (query : string) : list (string * string) :=
  pair_of <$>
    List.filter (λ c, negb (String.eqb c EmptyString))
      (split_on (String.length query) "&" query).

Definition drop_first (s : string) : string :=
  match s with String _ rest => rest | EmptyString => EmptyString end.

(** The parser first removes control characters and spaces from both
    ends. *)
Definition is_control_or_space (c : ascii) : bool :=
  (nat_of_ascii c <=? 32)%nat.

Fixpoint strip_leading (s : string) : string :=
  match s with
  | String c rest => if is_control_or_space c then strip_leading rest else s
  | EmptyString => EmptyString
  end.

Fixpoint strip_trailing (s : string) : string :=
  match s with
  | EmptyString => EmptyString
  | String c rest =>
      match strip_trailing rest with
      | EmptyString =>
          if is_control_or_space c then EmptyString else String c EmptyString
      | rest' => String c rest'
      end
  end.

Definition strip_controls (s : string) : string :=
  strip_trailing (strip_leading s).

Definition URL_new (input : string) : Res URL :=
  let invalid := Throw (ErrorObject "Invalid URL") in
  match break_at (is_char ":") (strip_controls input) with
  | (scheme, String _ (String "/" (String "/" rest))) =>
      match scheme with
      | String c _ =>
          if is_alpha c && all_chars is_scheme_char scheme then
            let '(authority, tail) :=
              break_at (λ c, is_char "/" c || is_char "?" c || is_char "#" c)
                       rest in
            let '(host, port_part) := break_at (is_char ":") authority in
            let '(path, tail') :=
              break_at (λ c, is_char "?" c || is_char "#" c) tail in
            let '(query, _) := break_at (is_char "#") tail' in
            if String.eqb host EmptyString then invalid
            else
              Ok {| protocol := scheme ++ ":";
                    hostname := host;
                    port := drop_first port_part;
                    pathname := if String.eqb path EmptyString then "/" else path;
                    search := if String.eqb query "?" then EmptyString else query;
                    searchParams := query_pairs (drop_first query) |}
          else invalid
      | EmptyString => invalid
      end
  | _ => invalid
  end.

(** JSON text is written below with apostrophes for its double quotes;
    [json_text] puts the double quotes back. *)
Fixpoint json_text (s : string) : string :=
  match s with
  | EmptyString => EmptyString
  | String c rest =>
      String (if is_char "'" c then dquote else c) (json_text rest)
  end.

(** [ToNumber] of a string, for the strings that write an integer in
    decimal digits; the empty string converts to zero. *)
Definition all_digits (s : string) : bool :=
  all_chars (λ c, bool_decide (is_Some (digit_of c))) s.

Definition string_to_number (s : string) : option Z :=
  match trim s with
  | EmptyString => Some 0
  | String "-" rest =>
      if all_digits rest then Z.opp <$> read_unsigned rest else None
  | String "+" rest => if all_digits rest then read_unsigned rest else None
  | s' => if all_digits s' then read_unsigned s' else None
  end.

Definition ToNumber_compare (v : JsValue) (k : Z) : option comparison :=
  (λ n, n ?= k) <$> string_to_number (ToString v).

Global Instance runtime : Runtime :=
  {| Js.JSON_parse := JSON_parse;
     Js.URL_new := URL_new;
     Js.ToNumber_compare := ToNumber_compare |}.

End Reference.

(** ** Vocabulary of the statements *)

Module Notions.
Import Js GenericFunctions Operation.

(** A string made of white space only: a sequence of white space code
    points. *)
Definition only_whitespace (s : string) : Prop :=
  ∃ l : list string, Forall (λ w, w ∈ whitespace) l ∧ s = concat_strings l.

(** The header text of a value: a string as it is, a number through
    [String]; every other kind of value has none. *)
Definition header_value (v : JsValue) : option string :=
  match v with
  | JStr s => Some s
  | JNum n => Some (String_of_number n)
  | _ => None
  end.

(** The fields of an object, as a finite map. *)
Definition fields_map (fields : list (string * JsValue)) : gmap string JsValue :=
  list_to_map fields.

(** A header mapping handed back as an object. *)
Definition as_mapping (h : gmap string string) : JsValue :=
  JObj (map_to_list (JStr <$> h)).

(** A URL parameter that is absent, empty or whitespace only. *)
Definition absent_or_blank (url : option string) : Prop :=
  match url with
  | None => True
  | Some s => only_whitespace s
  end.

(** The text the [catch] clause looks for before it adds the URLs. *)
Definition names_a_url (message : string) : bool :=
  includes "Download URL" message || includes "Upload URL" message.

(** What the [catch] clause makes of the fault [e] it caught after the
    requests [log]: the message is kept when it holds the words it looks
    for and is wrapped with both URLs otherwise; it is raised when
    [throwOnError] is set and returned in a record when it is not. *)
Definition reported (throwOnError : bool) (itemIndex : nat)
    (d u : string) (e : Thrown) (log : list Request)
    (outcome : list Request * Res INodeExecutionData) : Prop :=
  ∃ m : string,
    (names_a_url (message_of e) = true → m = message_of e) ∧
    (names_a_url (message_of e) = false →
       m = "File transfer failed: " ++ message_of e ++
           ". Download URL: " ++ d ++ ", Upload URL: " ++ u ∧
       includes d m = true ∧ includes u m = true) ∧
    (throwOnError = true → outcome = (log, Throw (ErrorObject m))) ∧
    (throwOnError = false →
       ∃ r, outcome = (log, Ok r) ∧
            pairedItem r = itemIndex ∧
            json r !! "success" = Some (JBool false) ∧
            json r !! "error" = Some (JStr m) ∧
            json r !! "downloadUrl" = Some (JStr d) ∧
            json r !! "uploadUrl" = Some (JStr u)).

(** The headers of the upload request in a log of requests, if one was
    sent. *)
Definition upload_headers (log : list Request) : option (gmap string string) :=
  match List.find is_upload log with
  | Some (Upload _ _ h) => Some h
  | _ => None
  end.

(** ASCII lower case, for comparing header names. *)
Definition lower_char (c : ascii) : ascii :=
  let n := nat_of_ascii c in
  if ((65 <=? n) && (n <=? 90))%nat then ascii_of_nat (n + 32) else c.

Fixpoint lower (s : string) : string :=
  match s with
  | EmptyString => EmptyString
  | String c rest => String (lower_char c) (lower rest)
  end.

(** A header mapping that has the header [name] under some
    capitalisation. *)
Definition has_header (h : gmap string string) (name : string) : Prop :=
  ∃ k, is_Some (h !! k) ∧ lower k = lower name.

(** The same request with another [throwOnError]. *)
Definition with_throwOnError (b : bool) (p : Params) : Params :=
  {| downloadUrl := downloadUrl p;
     uploadUrl := uploadUrl p;
     contentLength := contentLength p;
     method := method p;
     downloadHeadersParam := downloadHeadersParam p;
     uploadHeadersParam := uploadHeadersParam p;
     throwOnError := b |}.

End Notions.

(** ** Concrete requests and hosts *)

Module Examples.
Import Js Operation.

Definition source : string := "https://files.example.com/data.bin".
Definition target : string := "https://up.example.com/u?bearer=tok".

Definition request (uploadHeaders : JsValue) (length : StringOrNumber)
    (throwOnError : bool) : Params :=
  {| downloadUrl := Some source;
     uploadUrl := Some target;
     contentLength := length;
     method := POST;
     downloadHeadersParam := JStr "{}";
     uploadHeadersParam := uploadHeaders;
     throwOnError := throwOnError |}.

Definition no_length : StringOrNumber := AsString EmptyString.

(** A host for transferFile.operation.ts: the source answers with
    [downloadStatus], the destination with [uploadStatus]. *)
Definition native_host (downloadStatus uploadStatus : Z) : TransferFile.Host :=
  {| TransferFile.client_request := λ _ _,
       TransferFile.Responded (Some downloadStatus) ∅;
     TransferFile.helpers_request := λ _ _ _,
       Ok {| TransferFile.statusCode := Some uploadStatus;
             TransferFile.body := JUndefined |} |}.

(** A host whose download connection fails. *)
Definition refusing_host : TransferFile.Host :=
  {| TransferFile.client_request := λ _ _,
       TransferFile.Errored "connect ECONNREFUSED";
     TransferFile.helpers_request := λ _ _ _,
       Ok {| TransferFile.statusCode := Some 200;
             TransferFile.body := JUndefined |} |}.

(** A host for the older operation: the download answers [downloadStatus]
    with [body], the upload answers with an object holding
    [uploadStatus]. *)
Definition helper_host (downloadStatus : Z) (body : HelperTransfer.ResponseBody)
    (uploadStatus : Z) : HelperTransfer.Host :=
  {| HelperTransfer.helpers_request := λ _ _,
       Ok {| HelperTransfer.statusCode := Some downloadStatus;
             HelperTransfer.headers := None;
             HelperTransfer.body := body |};
     HelperTransfer.helpers_httpRequest := λ _ _ _,
       Ok (JObj [("statusCode", JNum uploadStatus)]) |}.

Definition parsed_body : JsValue :=
  JObj [("status", JStr "ok"); ("items", JArr [JNum 1; JNum 2])].

(** A request whose download URL is whitespace only. *)
Definition blank_request : Params :=
  {| downloadUrl := Some "   ";
     uploadUrl := Some target;
     contentLength := no_length;
     method := POST;
     downloadHeadersParam := JStr "{}";
     uploadHeadersParam := JStr "{}";
     throwOnError := true |}.

(** A parsed body whose JSON text has 311 characters in 611 bytes: three
    hundred times the letter e with an acute accent. *)
Definition accented_body : JsValue :=
  JObj [("text", JStr (concat_strings (replicate 300 (bytes [195; 169]%nat))))].

(** A request whose download URL is a no-break space, a line separator
    and a space, and whose upload URL is empty. *)
Definition unicode_blank_request : Params :=
  {| downloadUrl := Some (bytes [194; 160; 226; 128; 168; 32]%nat);
     uploadUrl := Some EmptyString;
     contentLength := no_length;
     method := POST;
     downloadHeadersParam := JStr "{}";
     uploadHeadersParam := JStr "{}";
     throwOnError := true |}.



(** Header parameters as the node receives them. *)
Definition mixed_headers : string :=
  Reference.json_text "{'a': 1, 'b': true, 'c': 'x', 'd': null, 'e': {'f': 2}}".

Definition mixed_fields : list (string * JsValue) :=
  [("a", JNum 1); ("b", JBool true); ("c", JStr "x"); ("d", JNull);
   ("e", JObj [("f", JNum 2)])].

Definition array_headers : string := Reference.json_text "[1, 'a']".

End Examples.

(** ** actions/index.ts and SiteToSiteFileTransfer.node.ts *)

Module Actions.
Import Js Operation.

(** An entry of the registry [operations]; the parameter form of an
    operation plays no part in its execution. *)
Record OperationEntry `{!Runtime} : Type := {
  execute : TransferFile.Host → Params → nat → M INodeExecutionData;
}.

(** [operations.transferFile] *)
Definition transferFile `{!Runtime} : OperationEntry :=
  {| execute := TransferFile.execute |}.

End Actions.

Module Node.
Import Js Operation.

(** What the node reads from its execution context: the number of input
    items ([getInputData().length]), the parameters of each item
    ([getNodeParameter(name, itemIndex)]) and [continueOnFail()]. *)
Record Context : Type := {
  items : nat;
  parameters : nat → Params;
  continueOnFail : bool;
}.

(** The entry pushed for an item that failed, under [continueOnFail]. *)
Definition error_entry (error : Thrown) (itemIndex : nat) : INodeExecutionData :=
  {| json := {[ "error" := JStr (message_of error) ]};
     pairedItem := itemIndex |}.

(** [if (error instanceof Error) throw error; throw new Error(String(error))] *)
Definition rethrown (error : Thrown) : Thrown :=
  match error with
  | ErrorObject _ => error
  | OtherValue s => ErrorObject s
  end.

Section WithRuntime.
Context `{!Runtime}.
Variable host : TransferFile.Host.

(** The loop [for (itemIndex = 0; itemIndex < items.length; itemIndex++)],
    entered at [itemIndex] with [remaining] items to go. *)
Fixpoint loop (ctx : Context) (remaining itemIndex : nat)
    (returnData : list INodeExecutionData) : M (list INodeExecutionData) :=
  match remaining with
  | O => mret returnData
  | S remaining' =>
      entry ←
        try_catch_M
          (Actions.execute Actions.transferFile host
             (parameters ctx itemIndex) itemIndex)
          (λ error,
             if continueOnFail ctx
             then mret (error_entry error itemIndex)
             else throw (rethrown error));
      loop ctx remaining' (S itemIndex) (returnData ++ [entry])%list
  end.

Definition execute (ctx : Context) : M (list (list INodeExecutionData)) :=
  returnData ← loop ctx (items ctx) 0%nat [];
  mret [returnData].

End WithRuntime.
End Node.

(** ** Further vocabulary and concrete inputs *)

Module MoreNotions.
Import Js GenericFunctions Operation Notions.

(** A status code in [200, 300). *)
Definition accepted (code : Z) : Prop := 200 ≤ code < 300.

(** The logs an invocation can leave: nothing, the download alone, or the
    download followed by the upload. *)
Definition one_transfer (p : Params) (log : list Request) : Prop :=
  log = [] ∨
  ∃ d fdh,
    downloadUrl p = Some d ∧
    (log = [Download d fdh] ∨
     ∃ u h, uploadUrl p = Some u ∧
            log = [Download d fdh; Upload (method p) u h]).

End MoreNotions.

Module MoreExamples.
Import Js Operation Examples.

(** A source that announces 4096 bytes and a destination that answers 201
    with a JSON text. *)
Definition announcing_host : TransferFile.Host :=
  {| TransferFile.client_request := λ _ _,
       TransferFile.Responded (Some 200) {[ "content-length" := "4096" ]};
     TransferFile.helpers_request := λ _ _ _,
       Ok {| TransferFile.statusCode := Some 201;
             TransferFile.body := JStr (Reference.json_text "{'id': 7}") |} |}.

(** A source whose response carries no status code. *)
Definition statusless_host : TransferFile.Host :=
  {| TransferFile.client_request := λ _ _, TransferFile.Responded None ∅;
     TransferFile.helpers_request := λ _ _ _,
       Ok {| TransferFile.statusCode := Some 200;
             TransferFile.body := JUndefined |} |}.

(** For the older operation: a response without status code. *)
Definition statusless_helper (body : HelperTransfer.ResponseBody)
  : HelperTransfer.Host :=
  {| HelperTransfer.helpers_request := λ _ _,
       Ok {| HelperTransfer.statusCode := None;
             HelperTransfer.headers := None;
             HelperTransfer.body := body |};
     HelperTransfer.helpers_httpRequest := λ _ _ _, Ok (JStr "done") |}.

(** For the older operation: an upload response whose [statusCode] is a
    text. *)
Definition textual_status_helper (status : string) : HelperTransfer.Host :=
  {| HelperTransfer.helpers_request := λ _ _,
       Ok {| HelperTransfer.statusCode := Some 200;
             HelperTransfer.headers := None;
             HelperTransfer.body := HelperTransfer.StreamBody |};
     HelperTransfer.helpers_httpRequest := λ _ _ _,
       Ok (JObj [("statusCode", JStr status)]) |}.

(** A host that answers 404 to one source and 200 to every other. *)
Definition selective_host : TransferFile.Host :=
  {| TransferFile.client_request := λ _ options,
       if String.eqb (TransferFile.opt_path options) "/missing"
       then TransferFile.Responded (Some 404) ∅
       else TransferFile.Responded (Some 200) ∅;
     TransferFile.helpers_request := λ _ _ _,
       Ok {| TransferFile.statusCode := Some 201;
             TransferFile.body := JUndefined |} |}.

Definition request_from (sourceUrl : string) : Params :=
  {| downloadUrl := Some sourceUrl;
     uploadUrl := Some target;
     contentLength := no_length;
     method := PUT;
     downloadHeadersParam := JStr "{}";
     uploadHeadersParam := JStr "{}";
     throwOnError := true |}.

(** The reading of [source] by the reference runtime. *)
Definition source_url : URL :=
  {| protocol := "https:";
     hostname := "files.example.com";
     port := EmptyString;
     pathname := "/data.bin";
     search := EmptyString;
     searchParams := [] |}.

Definition announced : gmap string string := {[ "content-length" := "4096" ]}.

Definition created : TransferFile.FullResponse :=
  {| TransferFile.statusCode := Some 201;
     TransferFile.body := JStr (Reference.json_text "{'id': 7}") |}.

(** The record of a transfer that went through with 200 and 201. *)
Definition plain_success : INodeExecutionData :=
  {| json := TransferFile.success_record 200 (Some 201) JUndefined;
     pairedItem := 0 |}.

(** The record of the older operation for an upload response that holds
    the text 250 as its [statusCode]. *)
Definition textual_success : INodeExecutionData :=
  {| json := HelperTransfer.success_record (Some 200) (JStr "250")
               (JObj [("statusCode", JStr "250")]);
     pairedItem := 0 |}.

Definition missing : string := "https://files.example.com/missing".

(** Three items; the second asks for a file that is missing. *)
Definition three_items (continue : bool) : Node.Context :=
  {| Node.items := 3;
     Node.parameters := λ itemIndex,
       if (itemIndex =? 1)%nat
       then request_from "https://files.example.com/missing"
       else request_from source;
     Node.continueOnFail := continue |}.

End MoreExamples.

Module NodeNotions.
Import Js Operation.

(** An invocation that only adds to the log of requests it is given. *)
Definition appends {A} (m : M A) : Prop :=
  ∀ log, m log = ((log ++ (run m).1)%list, (run m).2).

Section WithRuntime.
Context `{!Runtime}.
Variable host : TransferFile.Host.
Variable ctx : Node.Context.

(** Item [j] processed on its own. *)
Definition item_run (j : nat) : list Request * Res INodeExecutionData :=
  run (TransferFile.execute host (Node.parameters ctx j) j).

(** The entry of item [j] in the output under [continueOnFail]. *)
Definition item_entry (j : nat) : INodeExecutionData :=
  match (item_run j).2 with
  | Ok r => r
  | Throw e => Node.error_entry e j
  end.

(** The requests of the items from [first] on, [count] of them. *)
Definition requests_of (first count : nat) : list Request :=
  concat ((λ j, (item_run j).1) <$> seq first count).

End WithRuntime.
End NodeNotions.

(** * Properties *)

(** ** Strings *)

Module StringFacts.
Import Js Notions.

Lemma append_nil_l (s : string) : EmptyString ++ s = s.
Proof. reflexivity. Qed.

Lemma append_cons (c : ascii) (a b : string) :
  String c a ++ b = String c (a ++ b).
Proof. reflexivity. Qed.

Lemma append_nil_r (s : string) : s ++ EmptyString = s.
Proof. induction s as [|c s IH]; [done|]. by rewrite append_cons, IH. Qed.

Lemma append_assoc (a b c : string) : (a ++ b) ++ c = a ++ (b ++ c).
Proof.
  induction a as [|x a IH]; [done|]. by rewrite !append_cons, IH.
Qed.

Lemma prefix_app (n rest : string) : String.prefix n (n ++ rest) = true.
Proof.
  induction n as [|c n IH].
  - rewrite append_nil_l. by destruct rest.
  - rewrite append_cons. simpl. destruct (ascii_dec c c); [exact IH | done].
Qed.

Lemma prefix_inv (n h : string) :
  String.prefix n h = true → ∃ rest, h = n ++ rest.
Proof.
  revert h. induction n as [|c n IH]; intros h Hp.
  - by exists h.
  - destruct h as [|d h]; simpl in Hp; [done|].
    destruct (ascii_dec c d) as [->|]; [|done].
    destruct (IH _ Hp) as [rest ->]. by exists rest.
Qed.

Lemma includes_here (n h : string) :
  String.prefix n h = true → includes n h = true.
Proof. intros Hp. destruct h; cbn [includes]; by rewrite Hp. Qed.

Lemma includes_later (n : string) (c : ascii) (h : string) :
  includes n h = true → includes n (String c h) = true.
Proof. intros Hi. cbn [includes]. rewrite Hi. apply orb_true_r. Qed.

Lemma includes_app_l (n pre h : string) :
  includes n h = true → includes n (pre ++ h) = true.
Proof.
  intros Hi. induction pre as [|c pre IH]; [done|].
  rewrite append_cons. by apply includes_later.
Qed.

(** [includes] is the substring relation. *)
Lemma includes_spec (n h : string) :
  includes n h = true ↔ ∃ pre post, h = pre ++ n ++ post.
Proof.
  split.
  - induction h as [|c h IH]; cbn [includes]; intros Hi.
    + rewrite orb_false_r in Hi. destruct (prefix_inv _ _ Hi) as [post ->].
      by exists EmptyString, post.
    + apply orb_true_iff in Hi as [Hp|Hi].
      * destruct (prefix_inv _ _ Hp) as [post ->]. by exists EmptyString, post.
      * destruct (IH Hi) as (pre & post & ->). by exists (String c pre), post.
  - intros (pre & post & ->). apply includes_app_l, includes_here, prefix_app.
Qed.

Lemma includes_app_r (n h post : string) :
  includes n h = true → includes n (h ++ post) = true.
Proof.
  rewrite !includes_spec. intros (a & b & ->).
  exists a, (b ++ post). by rewrite !append_assoc.
Qed.

Lemma utf16_length_take_units (n : nat) (s : string) :
  (utf16_length (take_units n s) ≤ n)%nat.
Proof.
  remember (String.length s) as m eqn:Hm.
  assert (String.length s ≤ m)%nat as Hle by lia. clear Hm.
  revert s n Hle. induction m as [|m IH]; intros s n Hle.
  - destruct s; [|simpl in Hle; lia]. destruct n; simpl; lia.
  - destruct n as [|n]; [destruct s; simpl; lia|].
    destruct s as [|a r1]; [simpl; lia|].
    cbn [take_units]. cbn [String.length] in Hle.
    destruct (nat_of_ascii a <? 192)%nat eqn:H1.
    { cbn [utf16_length]. rewrite H1. specialize (IH r1 n). lia. }
    destruct r1 as [|b r2]; [cbn [utf16_length]; rewrite H1; lia|].
    cbn [String.length] in Hle.
    destruct (nat_of_ascii a <? 224)%nat eqn:H2.
    { cbn [utf16_length]. rewrite H1, H2. specialize (IH r2 n). lia. }
    destruct r2 as [|c r3]; [cbn [utf16_length]; rewrite H1, H2; lia|].
    cbn [String.length] in Hle.
    destruct (nat_of_ascii a <? 240)%nat eqn:H3.
    { cbn [utf16_length]. rewrite H1, H2, H3. specialize (IH r3 n). lia. }
    destruct r3 as [|d r4]; [cbn [utf16_length]; rewrite H1, H2, H3; lia|].
    cbn [String.length] in Hle.
    destruct n as [|n].
    + unfold high_surrogate. cbn [utf16_length].
      change (nat_of_ascii (ascii_of_N 237)) with 237%nat. simpl. lia.
    + cbn [utf16_length]. rewrite H1, H2, H3. specialize (IH r4 n). lia.
Qed.

Lemma includes_middle (n pre post : string) :
  includes n (pre ++ n ++ post) = true.
Proof. apply includes_spec. by exists pre, post. Qed.

Lemma includes_trans (a b c : string) :
  includes a b = true → includes b c = true → includes a c = true.
Proof.
  rewrite !includes_spec. intros (p1 & q1 & ->) (p2 & q2 & ->).
  exists (p2 ++ p1), (q1 ++ q2). by rewrite !append_assoc.
Qed.

Lemma concat_strings_app (l k : list string) :
  concat_strings (l ++ k)%list = concat_strings l ++ concat_strings k.
Proof.
  induction l as [|w l IH]; [done|].
  cbn [app concat_strings foldr]. fold (concat_strings (l ++ k)%list).
  fold (concat_strings l). by rewrite IH, append_assoc.
Qed.

Lemma only_whitespace_nil : only_whitespace EmptyString.
Proof. by exists []. Qed.

Lemma only_whitespace_app (a b : string) :
  only_whitespace a → only_whitespace b → only_whitespace (a ++ b).
Proof.
  intros (l & Hl & ->) (k & Hk & ->). exists (l ++ k)%list.
  split; [by apply Forall_app|]. by rewrite concat_strings_app.
Qed.

Lemma only_whitespace_one (w : string) : w ∈ whitespace → only_whitespace w.
Proof.
  intros Hw. exists [w]. split; [by apply Forall_singleton|].
  cbn [concat_strings foldr]. by rewrite append_nil_r.
Qed.

Lemma strip_prefix_app (w s r : string) :
  strip_prefix w s = Some r → s = w ++ r.
Proof.
  revert s. induction w as [|a w IH]; intros s; simpl.
  - by intros [= ->].
  - destruct s as [|b s]; [done|].
    destruct (Ascii.eqb_spec a b) as [->|]; [|done].
    intros Hr. rewrite append_cons. f_equal. by apply IH.
Qed.

Lemma strip_any_app (ws : list string) (s r : string) :
  strip_any ws s = Some r → ∃ w, w ∈ ws ∧ s = w ++ r.
Proof.
  induction ws as [|w ws IH]; simpl; [done|].
  destruct (strip_prefix w s) as [r'|] eqn:Hw.
  - intros [= ->]. exists w. split; [left|]. by apply strip_prefix_app.
  - intros (w' & ? & ?)%IH. exists w'. split; [by right|done].
Qed.

Lemma strip_ws_app (s r : string) :
  strip_ws s = Some r → ∃ w, w ∈ whitespace ∧ s = w ++ r.
Proof. apply strip_any_app. Qed.

Lemma strip_ws_whitespace (w r : string) :
  w ∈ whitespace → strip_ws (w ++ r) = Some r.
Proof.
  intros H%list_elem_of_In. cbv in H.
  repeat (destruct H as [<-|H]; [reflexivity|]). done.
Qed.

Lemma whitespace_length (w : string) :
  w ∈ whitespace → (0 < String.length w)%nat.
Proof.
  intros H%list_elem_of_In. cbv in H.
  repeat (destruct H as [<-|H]; [cbn; lia|]). done.
Qed.

Lemma length_append (a b : string) :
  String.length (a ++ b) = (String.length a + String.length b)%nat.
Proof. induction a as [|c a IH]; [done|]. rewrite append_cons. simpl. by rewrite IH. Qed.

Lemma trimStart_go_split (fuel : nat) (s : string) :
  ∃ w, only_whitespace w ∧ s = w ++ trimStart_go fuel s.
Proof.
  revert s. induction fuel as [|fuel IH]; intros s; simpl.
  - exists EmptyString. split; [apply only_whitespace_nil|done].
  - destruct (strip_ws s) as [r|] eqn:Hs.
    + destruct (strip_ws_app _ _ Hs) as (w & Hw & ->).
      destruct (IH r) as (w' & Hw' & Hr). exists (w ++ w'). split.
      * by apply only_whitespace_app; [apply only_whitespace_one|].
      * by rewrite append_assoc, <- Hr.
    + exists EmptyString. split; [apply only_whitespace_nil|done].
Qed.

Lemma trimStart_go_whitespace (l : list string) (fuel : nat) :
  Forall (λ w, w ∈ whitespace) l →
  (String.length (concat_strings l) ≤ fuel)%nat →
  trimStart_go fuel (concat_strings l) = EmptyString.
Proof.
  revert fuel. induction l as [|w l IH]; intros fuel Hl Hfuel.
  - by destruct fuel.
  - apply Forall_cons in Hl as [Hw Hl].
    cbn [concat_strings foldr] in *. fold (concat_strings l) in *.
    rewrite length_append in Hfuel. pose proof (whitespace_length _ Hw).
    destruct fuel as [|fuel]; [lia|].
    cbn [trimStart_go]. rewrite strip_ws_whitespace by done.
    apply IH; [done|lia].
Qed.

Lemma trimStart_whitespace (s : string) :
  only_whitespace s → trimStart s = EmptyString.
Proof.
  intros (l & Hl & ->). by apply trimStart_go_whitespace.
Qed.

Lemma trimEnd_split (s : string) :
  ∃ v, only_whitespace v ∧ s = trimEnd s ++ v.
Proof.
  induction s as [|c s (v & Hv & Hs)]; simpl.
  - exists EmptyString. split; [apply only_whitespace_nil|done].
  - unfold is_whitespace. case_bool_decide as Hk.
    + exists (String c (trimEnd s) ++ v). split.
      * by apply only_whitespace_app; [apply only_whitespace_one|].
      * by rewrite append_cons, <- Hs.
    + exists v. split; [done|]. by rewrite append_cons, <- Hs.
Qed.

Lemma trim_whitespace (s : string) : only_whitespace s → trim s = EmptyString.
Proof. intros Hs. unfold trim. by rewrite trimStart_whitespace. Qed.

(** [s.trim() === ''] holds exactly of the strings made of white space. *)
Lemma trim_empty_iff (s : string) :
  trim s = EmptyString ↔ only_whitespace s.
Proof.
  split; [|apply trim_whitespace].
  unfold trim, trimStart. intros Ht.
  destruct (trimStart_go_split (String.length s) s) as (w & Hw & Hs).
  destruct (trimEnd_split (trimStart_go (String.length s) s)) as (v & Hv & Hr).
  rewrite Ht, append_nil_l in Hr. rewrite Hs, Hr.
  by apply only_whitespace_app.
Qed.

(** A cut between the two surrogates of a code point keeps the first. *)
Lemma take_units_splits_pair :
  take_units 2 ("a" ++ bytes [240; 159; 152; 128]%nat) =
    "a" ++ bytes [237; 160; 189]%nat ∧
  utf16_length ("a" ++ bytes [240; 159; 152; 128]%nat) = 3%nat.
Proof. split; vm_compute; reflexivity. Qed.

(** Finds a needle that is one of the segments of a concatenation, or that
    lies inside one of its literal segments. *)
Ltac find_segment :=
  first [ apply includes_here, prefix_app
        | apply includes_app_r; reflexivity
        | apply includes_app_l; find_segment ].

End StringFacts.

(** ** Header normalisation ([parseHeaders]) *)

Module HeaderProperties.
Import Js GenericFunctions Notions.

(** A decimal numeral is not the name [__proto__]. *)
Lemma pretty_N_go_head (x : N) (s : string) :
  (∀ t, s ≠ String "_" t) → ∀ t, pretty_N_go x s ≠ String "_" t.
Proof.
  revert s. induction (N.lt_wf_0 x) as [x _ IH]; intros s Hs t.
  destruct (decide (x = 0%N)) as [->|Hx].
  - rewrite pretty_N_go_0. apply Hs.
  - rewrite pretty_N_go_step by lia. apply IH; [apply N.div_lt; lia|].
    intros t'. unfold pretty_N_char. by repeat case_match.
Qed.

Lemma pretty_index_name (i : nat) : pretty i ≠ "__proto__".
Proof.
  unfold pretty, pretty_nat, pretty, pretty_N.
  case_decide; [done|]. by apply pretty_N_go_head.
Qed.

Lemma assign_string_lookup (o : gmap string string) (k t j : string) :
  assign_string o k t !! j =
    if decide (k = j ∧ k ≠ "__proto__") then Some t else o !! j.
Proof.
  unfold assign_string.
  destruct (String.eqb_spec k "__proto__") as [->|Hk].
  - by rewrite decide_False by (by intros [_ ?]).
  - destruct (decide (k = j)) as [->|Hne].
    + by rewrite decide_True, lookup_insert_eq.
    + rewrite decide_False by (by intros [? _]). by rewrite lookup_insert_ne.
Qed.

(** What one turn of the loop stores: nothing under [__proto__], and the
    header text of the value under any other name. *)
Lemma store_entry_lookup (result : gmap string string) (k : string)
    (v : JsValue) (j : string) :
  store_entry result (k, v) !! j =
    if decide (k = j)
    then from_option Some (result !! j)
           (if decide (k = "__proto__") then None else header_value v)
    else result !! j.
Proof.
  unfold store_entry; cbn [fst snd].
  destruct (decide (k = j)) as [->|Hne].
  - destruct (decide (j = "__proto__")) as [Hj|Hj];
      destruct v; cbn [header_value from_option];
      rewrite ?assign_string_lookup; try done.
    all: first [ by rewrite decide_False by (by intros [_ ?])
               | by rewrite decide_True by done ].
  - destruct v; rewrite ?assign_string_lookup; try done.
    all: by rewrite decide_False by (by intros [? _]).
Qed.

Lemma foldl_store_entry (fields : list (string * JsValue)) :
  NoDup fields.*1 →
  ∀ (acc : gmap string string) (j : string),
    foldl store_entry acc fields !! j =
      from_option Some (acc !! j)
        (delete "__proto__" (fields_map fields) !! j ≫= header_value).
Proof.
  unfold fields_map.
  induction fields as [|[k v] fields IH]; intros Hnd acc j.
  { cbn [foldl list_to_map foldr]. by rewrite delete_empty. }
  apply NoDup_cons in Hnd as [Hk Hnd]. cbn [foldl].
  rewrite IH by done. rewrite store_entry_lookup. cbn [list_to_map foldr].
  change (foldr _ ∅ fields) with (list_to_map fields : gmap string JsValue).
  destruct (decide (k = j)) as [->|Hne].
  - destruct (decide (j = "__proto__")) as [->|Hj].
    + by rewrite !lookup_delete_eq.
    + rewrite !lookup_delete_ne, lookup_insert_eq by done.
      by rewrite (not_elem_of_list_to_map_1 (M:=gmap string) fields j Hk).
  - destruct (decide ("__proto__" = j)) as [<-|Hj].
    + by rewrite !lookup_delete_eq.
    + by rewrite !lookup_delete_ne, lookup_insert_ne by done.
Qed.

(** On an object with distinct field names the loop keeps exactly the
    string and number fields whose name is not [__proto__]. *)
Lemma collect_object (fields : list (string * JsValue)) :
  NoDup fields.*1 →
  collect (JObj fields) =
    omap header_value (delete "__proto__" (fields_map fields)).
Proof.
  intros Hnd. apply map_eq; intros j. unfold collect; simpl.
  rewrite foldl_store_entry by done. rewrite lookup_omap, lookup_empty.
  by destruct (delete "__proto__" (fields_map fields) !! j ≫= header_value).
Qed.

(** The result never has a property [__proto__] of its own. *)
Lemma foldl_store_entry_proto (fields : list (string * JsValue))
    (acc : gmap string string) :
  acc !! "__proto__" = None →
  foldl store_entry acc fields !! "__proto__" = None.
Proof.
  revert acc. induction fields as [|[k v] fields IH]; intros acc Hacc; [done|].
  cbn [foldl]. apply IH. rewrite store_entry_lookup.
  destruct (decide (k = "__proto__")) as [->|]; [|done].
  by rewrite Hacc.
Qed.

Lemma collect_proto (o : JsValue) : collect o !! "__proto__" = None.
Proof. unfold collect. by apply foldl_store_entry_proto. Qed.

Lemma index_entries_keys {A} (xs : list A) :
  NoDup (index_entries xs).*1.
Proof.
  unfold index_entries. rewrite fmap_imap.
  apply NoDup_alt. intros i j k.
  rewrite !list_lookup_imap.
  destruct (xs !! i) eqn:Hi, (xs !! j) eqn:Hj; simpl; try done.
  intros [= <-] [= Heq]. by apply (inj pretty) in Heq.
Qed.

Lemma index_entries_lookup {A} (xs : list A) (i : nat) :
  (list_to_map (index_entries xs) : gmap string A) !! pretty i = xs !! i.
Proof.
  destruct (xs !! i) as [x|] eqn:Hi.
  - apply elem_of_list_to_map_1; [apply index_entries_keys|].
    unfold index_entries.
    apply (elem_of_lookup_imap_2 (λ i x, (pretty i, x))), Hi.
  - apply not_elem_of_list_to_map_1. intros Hin.
    apply list_elem_of_fmap in Hin as ([k x] & Hk & Hin).
    unfold index_entries in Hin.
    apply elem_of_lookup_imap_1 in Hin as (j & y & [= -> ->] & Hj).
    simpl in Hk. apply (inj pretty) in Hk as ->. congruence.
Qed.

Lemma index_entries_key {A} (xs : list A) (k : string) :
  is_Some ((list_to_map (index_entries xs) : gmap string A) !! k) →
  ∃ i : nat, k = pretty i ∧ is_Some (xs !! i).
Proof.
  intros [x Hx]. apply elem_of_list_to_map_2 in Hx.
  unfold index_entries in Hx.
  apply elem_of_lookup_imap_1 in Hx as (j & y & [= -> ->] & Hj). eauto.
Qed.

(** On an array the loop keeps the string and number elements, each under
    its decimal index. *)
Lemma collect_array (xs : list JsValue) :
  collect (JArr xs) = omap header_value (fields_map (index_entries xs)).
Proof.
  intros. apply map_eq; intros j. unfold collect; simpl.
  rewrite foldl_store_entry by apply index_entries_keys.
  rewrite lookup_omap, lookup_empty.
  rewrite delete_id.
  - by destruct (fields_map (index_entries xs) !! j ≫= header_value).
  - apply eq_None_not_Some. intros Hp.
    destruct (index_entries_key xs _ Hp) as (i & Hi & _).
    by destruct (pretty_index_name i).
Qed.

Lemma collect_as_mapping (h : gmap string string) :
  h !! "__proto__" = None → collect (as_mapping h) = h.
Proof.
  intros Hp.
  unfold as_mapping. rewrite collect_object by apply NoDup_fst_map_to_list.
  unfold fields_map. rewrite list_to_map_to_list.
  apply map_eq; intros j. rewrite lookup_omap.
  destruct (decide ("__proto__" = j)) as [<-|Hj].
  - by rewrite lookup_delete_eq, Hp.
  - rewrite lookup_delete_ne, lookup_fmap by done. by destruct (h !! j).
Qed.

Section WithRuntime.
Context `{!Runtime}.

Lemma parseHeaders_string (s : string) :
  s ≠ EmptyString →
  parseHeaders (JStr s) =
    Ok (match JSON_parse s with
        | Ok parsed => if is_object parsed then collect parsed else ∅
        | Throw _ => ∅
        end).
Proof.
  intros Hs. unfold parseHeaders. cbn [truthy].
  destruct (String.eqb_spec s EmptyString) as [->|_]; [done|]. cbn [negb].
  destruct (JSON_parse s) as [parsed|e]; simpl; [|done].
  by destruct (is_object parsed).
Qed.

Lemma parseHeaders_object (fields : list (string * JsValue)) :
  parseHeaders (JObj fields) = Ok (collect (JObj fields)).
Proof. reflexivity. Qed.

Lemma parseHeaders_falsy (x : JsValue) :
  truthy x = false → parseHeaders x = Ok ∅.
Proof. intros Hx. unfold parseHeaders. by rewrite Hx. Qed.

(** [parseHeaders] returns on every input. *)
Lemma parseHeaders_returns (x : JsValue) : ∃ h, parseHeaders x = Ok h.
Proof.
  destruct (truthy x) eqn:Hx; [|by eexists; apply parseHeaders_falsy].
  destruct x as [| |b|n|s| |]; try (by eexists); try done.
  - exists ∅. unfold parseHeaders. by rewrite Hx.
  - exists ∅. unfold parseHeaders. by rewrite Hx.
  - assert (s ≠ EmptyString) as Hs by (by intros ->).
    eexists. by apply parseHeaders_string.
Qed.

(** The result of [parseHeaders] has no property [__proto__]. *)
Lemma parseHeaders_proto (x : JsValue) (h : gmap string string) :
  parseHeaders x = Ok h → h !! "__proto__" = None.
Proof.
  destruct (truthy x) eqn:Hx.
  - destruct x as [| |b|n|s|xs|fields]; try done.
    + unfold parseHeaders. rewrite Hx. by intros [= <-].
    + unfold parseHeaders. rewrite Hx. by intros [= <-].
    + assert (s ≠ EmptyString) as Hs by (by intros ->).
      rewrite parseHeaders_string by done. intros [= <-].
      destruct (JSON_parse s) as [parsed|]; [|done].
      destruct (is_object parsed); [apply collect_proto | done].
    + intros [= <-]. apply collect_proto.
    + intros [= <-]. apply collect_proto.
  - rewrite parseHeaders_falsy by done. by intros [= <-].
Qed.


(** C9.  Normalising the mapping that [parseHeaders] returned gives that
    mapping again. *)
Theorem parseHeaders_idempotent (x : JsValue) :
  (h ← parseHeaders x; parseHeaders (as_mapping h)) = parseHeaders x.
Proof.
  destruct (parseHeaders_returns x) as [h Hh]. rewrite Hh.
  change (parseHeaders (as_mapping h) = Ok h).
  unfold as_mapping at 1. rewrite parseHeaders_object.
  f_equal. by apply collect_as_mapping, (parseHeaders_proto x).
Qed.

(** C10, as amended.  A string that parses to an array passes the object
    test: every element that is a string or a number becomes an entry
    under its decimal index, nothing else is in the result, and the
    result is non-empty exactly when the array has such an element. *)
Theorem parseHeaders_array (s : string) (xs : list JsValue) :
  s ≠ EmptyString →
  JSON_parse s = Ok (JArr xs) →
  ∃ h : gmap string string,
    parseHeaders (JStr s) = Ok h ∧
    (∀ i : nat, h !! pretty i = xs !! i ≫= header_value) ∧
    (∀ k, is_Some (h !! k) → ∃ i : nat, k = pretty i) ∧
    (h ≠ ∅ ↔ ∃ v, v ∈ xs ∧ is_Some (header_value v)).
Proof.
  intros Hs Hp. eexists. split.
  { rewrite parseHeaders_string, Hp by done.
    change (is_object (JArr xs)) with true. cbv iota.
    by rewrite collect_array. }
  assert (∀ i : nat,
    omap header_value (fields_map (index_entries xs)) !! pretty i =
      xs !! i ≫= header_value) as Hidx.
  { intros i. rewrite lookup_omap. unfold fields_map.
    by rewrite index_entries_lookup. }
  split; [exact Hidx|]. split.
  - intros k [t Hk]. apply lookup_omap_Some in Hk as (v & _ & Hv).
    destruct (index_entries_key xs k) as (i & -> & _); eauto.
  - split.
    + intros Hne. apply map_choose in Hne as (k & t & Hk).
      apply lookup_omap_Some in Hk as (v & Hv & Hk).
      destruct (index_entries_key xs k) as (i & -> & _); [eauto|].
      unfold fields_map in Hk. rewrite index_entries_lookup in Hk.
      exists v. split; [by eapply list_elem_of_lookup_2 | by rewrite Hv].
    + intros (v & Hin & [t Ht]) Hempty.
      apply list_elem_of_lookup_1 in Hin as [i Hi].
      specialize (Hidx i). rewrite Hempty, lookup_empty, Hi in Hidx.
      simpl in Hidx. congruence.
Qed.

End WithRuntime.

(** *** On the reference runtime *)


Lemma parseHeaders_array_witness :
  ∃ h : gmap string string,
    parseHeaders (JStr Examples.array_headers) = Ok h ∧
    h !! "0" = Some "1" ∧ h !! "1" = Some "a".
Proof.
  destruct (parseHeaders_array Examples.array_headers [JNum 1; JStr "a"])
    as (h & Hh & Hidx & _).
  - discriminate.
  - vm_compute; reflexivity.
  - exists h. split; [exact Hh|].
    split; [exact (Hidx 0%nat) | exact (Hidx 1%nat)].
Defined.


(** C10, the claim as stated fails on the empty array: it parses as an
    array and the result is the empty mapping. *)
Lemma empty_array_gives_empty_mapping :
  JSON_parse "[]" = Ok (JArr []) ∧ parseHeaders (JStr "[]") = Ok ∅.
Proof. split; vm_compute; reflexivity. Qed.

End HeaderProperties.

(** ** The invocation monad *)

Module MonadFacts.
Import Js Operation Notions StringFacts.

Lemma bind_ok {A B} (m : M A) (k : A → M B) log log' a :
  m log = (log', Ok a) → (m ≫= k) log = k a log'.
Proof. intros Hm. unfold mbind, M_bind. by rewrite Hm. Qed.

Lemma bind_throw {A B} (m : M A) (k : A → M B) log log' e :
  m log = (log', Throw e) → (m ≫= k) log = (log', Throw e).
Proof. intros Hm. unfold mbind, M_bind. by rewrite Hm. Qed.

Lemma try_ok {A} (m : M A) (handler : Thrown → M A) log log' a :
  m log = (log', Ok a) → try_catch_M m handler log = (log', Ok a).
Proof. intros Hm. unfold try_catch_M. by rewrite Hm. Qed.

Lemma try_throw {A} (m : M A) (handler : Thrown → M A) log log' e :
  m log = (log', Throw e) → try_catch_M m handler log = handler e log'.
Proof. intros Hm. unfold try_catch_M. by rewrite Hm. Qed.

Lemma blank_spec (url : option string) :
  blank url = true ↔ absent_or_blank url.
Proof.
  destruct url as [s|]; simpl; [|done].
  rewrite orb_true_iff, <- trim_empty_iff. unfold GenericFunctions.nonempty.
  rewrite negb_involutive.
  destruct (String.eqb_spec (trim s) EmptyString) as [Ht|Ht]; [by split; auto|].
  destruct (String.eqb_spec s EmptyString) as [->|Hs]; [done|].
  split; [by intros [?|?] | done].
Qed.

Lemma required_ok (s message : string) log :
  blank (Some s) = false → required (Some s) message log = (log, Ok s).
Proof. intros Hb. unfold required. by rewrite Hb. Qed.

Lemma required_blank (url : option string) (message : string) log :
  blank url = true →
  required url message log = (log, Throw (ErrorObject message)).
Proof. intros Hb. unfold required. rewrite Hb. by destruct url. Qed.

(** What the [catch] clause does with the message it caught. *)
Lemma enhance_named (message d u : string) :
  names_a_url message = true → enhance message d u = message.
Proof. unfold names_a_url, enhance. by intros ->. Qed.

Lemma enhance_unnamed (message d u : string) :
  names_a_url message = false →
  enhance message d u =
    "File transfer failed: " ++ message ++ ". Download URL: " ++ d ++
    ", Upload URL: " ++ u.
Proof. unfold names_a_url, enhance. by intros ->. Qed.

Lemma includes_refl (s : string) : includes s s = true.
Proof. apply includes_here. induction s; simpl; [done|]. by destruct ascii_dec. Qed.

(** The caught message survives inside the enhanced one. *)
Lemma enhance_includes (message d u : string) :
  includes message (enhance message d u) = true.
Proof.
  unfold enhance. destruct (_ || _).
  - apply includes_refl.
  - apply includes_middle.
Qed.

Lemma enhance_includes_urls (message d u : string) :
  names_a_url message = false →
  includes d (enhance message d u) = true ∧
  includes u (enhance message d u) = true.
Proof.
  intros Hn. rewrite enhance_unnamed by done. split; apply includes_spec.
  - exists ("File transfer failed: " ++ message ++ ". Download URL: "),
           (", Upload URL: " ++ u).
    by rewrite !append_assoc.
  - exists ("File transfer failed: " ++ message ++ ". Download URL: " ++ d ++
            ", Upload URL: "), EmptyString.
    by rewrite !append_assoc, append_nil_r.
Qed.

Lemma on_error_throw (i : nat) (d u : string) (e : Thrown) log :
  on_error true i d u e log =
    (log, Throw (ErrorObject (enhance (message_of e) d u))).
Proof. reflexivity. Qed.

Lemma on_error_return (i : nat) (d u : string) (e : Thrown) log :
  on_error false i d u e log =
    (log, Ok {| json := caught_record (enhance (message_of e) d u) d u;
                pairedItem := i |}).
Proof. reflexivity. Qed.

(** The fields of the record the [catch] clause returns. *)
Lemma caught_record_fields (m d u : string) :
  caught_record m d u !! "success" = Some (JBool false) ∧
  caught_record m d u !! "error" = Some (JStr m) ∧
  caught_record m d u !! "downloadUrl" = Some (JStr d) ∧
  caught_record m d u !! "uploadUrl" = Some (JStr u) ∧
  caught_record m d u !! "downloadStatus" = None ∧
  caught_record m d u !! "uploadStatus" = None.
Proof. unfold caught_record. repeat split; by vm_compute. Qed.

End MonadFacts.

(** ** The transfer *)

Module TransferProperties.
Import Js GenericFunctions Operation Notions.
Import StringFacts MonadFacts HeaderProperties.

(** Runs the statements that precede the [try] block. *)
Ltac preamble Hd Hu Hbd Hbu Hdh Huh :=
  rewrite Hd, Hu;
  erewrite bind_ok by (by apply required_ok);
  erewrite bind_ok by (by apply required_ok);
  erewrite bind_ok by (unfold lift; by rewrite Hdh);
  erewrite bind_ok by (unfold lift; by rewrite Huh).

Section WithRuntime.
Context `{!Runtime}.

(** *** Validation *)

Lemma native_blank_download (host : TransferFile.Host) p i :
  blank (downloadUrl p) = true →
  run (TransferFile.execute host p i) =
    ([], Throw (ErrorObject download_required)).
Proof.
  intros Hb. unfold run, TransferFile.execute.
  by erewrite bind_throw by (by apply required_blank).
Qed.

Lemma native_blank_upload (host : TransferFile.Host) p i :
  blank (downloadUrl p) = false → blank (uploadUrl p) = true →
  run (TransferFile.execute host p i) =
    ([], Throw (ErrorObject upload_required)).
Proof.
  intros Hd Hu. unfold run, TransferFile.execute.
  destruct (downloadUrl p) as [d|] eqn:Ed; [|done].
  erewrite bind_ok by (by apply required_ok).
  by erewrite bind_throw by (by apply required_blank).
Qed.

Lemma helper_blank_download (host : HelperTransfer.Host) p i :
  blank (downloadUrl p) = true →
  run (HelperTransfer.execute host p i) =
    ([], Throw (ErrorObject download_required)).
Proof.
  intros Hb. unfold run, HelperTransfer.execute.
  by erewrite bind_throw by (by apply required_blank).
Qed.

Lemma helper_blank_upload (host : HelperTransfer.Host) p i :
  blank (downloadUrl p) = false → blank (uploadUrl p) = true →
  run (HelperTransfer.execute host p i) =
    ([], Throw (ErrorObject upload_required)).
Proof.
  intros Hd Hu. unfold run, HelperTransfer.execute.
  destruct (downloadUrl p) as [d|] eqn:Ed; [|done].
  erewrite bind_ok by (by apply required_ok).
  by erewrite bind_throw by (by apply required_blank).
Qed.

Lemma not_blank (url : option string) :
  ¬ absent_or_blank url → blank url = false.
Proof.
  intros Hn. destruct (blank url) eqn:Hb; [|done].
  by apply blank_spec in Hb.
Qed.

(** C6.  When the download URL or the upload URL is absent, empty or
    whitespace only, both operations raise an error that names the
    missing URL, before any request is sent and whatever [throwOnError]
    is. *)
Theorem blank_url_is_rejected (native : TransferFile.Host)
    (helper : HelperTransfer.Host) (p : Params) (i : nat) (b : bool) :
  absent_or_blank (downloadUrl p) ∨ absent_or_blank (uploadUrl p) →
  ∃ message : string,
    (absent_or_blank (downloadUrl p) → message = download_required) ∧
    (¬ absent_or_blank (downloadUrl p) → message = upload_required) ∧
    run (TransferFile.execute native (with_throwOnError b p) i) =
      ([], Throw (ErrorObject message)) ∧
    run (HelperTransfer.execute helper (with_throwOnError b p) i) =
      ([], Throw (ErrorObject message)).
Proof.
  intros Hblank.
  destruct (blank (downloadUrl p)) eqn:Hd.
  - exists download_required. apply blank_spec in Hd as Hd'.
    split; [done|]. split; [done|].
    split; [by apply native_blank_download | by apply helper_blank_download].
  - assert (¬ absent_or_blank (downloadUrl p)) as Hnd.
    { intros Ha. apply blank_spec in Ha. congruence. }
    destruct Hblank as [?|Hu]; [done|]. apply blank_spec in Hu.
    exists upload_required. split; [done|]. split; [done|].
    split; [by apply native_blank_upload | by apply helper_blank_upload].
Qed.

(** *** The outer boundary *)

Lemma native_execute_valid (host : TransferFile.Host) p i d u dh uh :
  downloadUrl p = Some d → uploadUrl p = Some u →
  blank (Some d) = false → blank (Some u) = false →
  parseHeaders (downloadHeadersParam p) = Ok dh →
  parseHeaders (uploadHeadersParam p) = Ok uh →
  run (TransferFile.execute host p i) =
    try_catch_M
      (TransferFile.transfer host p i d u (finalDownloadHeaders dh)
         (preparedUploadHeaders u uh (contentLength p)))
      (on_error (throwOnError p) i d u) [].
Proof.
  intros Hd Hu Hbd Hbu Hdh Huh. unfold run, TransferFile.execute.
  by preamble Hd Hu Hbd Hbu Hdh Huh.
Qed.

Lemma helper_execute_valid (host : HelperTransfer.Host) p i d u dh uh :
  downloadUrl p = Some d → uploadUrl p = Some u →
  blank (Some d) = false → blank (Some u) = false →
  parseHeaders (downloadHeadersParam p) = Ok dh →
  parseHeaders (uploadHeadersParam p) = Ok uh →
  run (HelperTransfer.execute host p i) =
    try_catch_M
      (HelperTransfer.transfer host p i d u (finalDownloadHeaders dh)
         (preparedUploadHeaders u uh (contentLength p)))
      (on_error (throwOnError p) i d u) [].
Proof.
  intros Hd Hu Hbd Hbu Hdh Huh. unfold run, HelperTransfer.execute.
  by preamble Hd Hu Hbd Hbu Hdh Huh.
Qed.

(** How a caught fault leaves the function. *)
Lemma on_error_outcome (b : bool) (i : nat) (d u : string) (e : Thrown) log :
  reported b i d u e log (on_error b i d u e log).
Proof.
  exists (enhance (message_of e) d u). repeat split.
  - apply enhance_named.
  - by apply enhance_unnamed.
  - by apply enhance_includes_urls.
  - by apply enhance_includes_urls.
  - by intros ->.
  - intros ->. eexists. split; [apply on_error_return|].
    split; [done|]. cbn [json].
    pose proof (caught_record_fields (enhance (message_of e) d u) d u).
    tauto.
Qed.

Lemma native_caught_fault (host : TransferFile.Host)
    (p : Params) (i : nat) (d u : string) (dh uh : gmap string string)
    (log : list Request) (e : Thrown) :
  downloadUrl p = Some d → uploadUrl p = Some u →
  ¬ absent_or_blank (Some d) → ¬ absent_or_blank (Some u) →
  parseHeaders (downloadHeadersParam p) = Ok dh →
  parseHeaders (uploadHeadersParam p) = Ok uh →
  run (TransferFile.transfer host p i d u (finalDownloadHeaders dh)
         (preparedUploadHeaders u uh (contentLength p))) =
    (log, Throw e) →
  run (TransferFile.execute host p i) =
    on_error (throwOnError p) i d u e log.
Proof.
  intros Hd Hu Hbd%not_blank Hbu%not_blank Hdh Huh Hrun.
  rewrite (native_execute_valid host p i d u dh uh) by done.
  by erewrite try_throw by exact Hrun.
Qed.

(** The older operation ends in the same [catch] clause. *)
Lemma helper_caught_fault (host : HelperTransfer.Host)
    (p : Params) (i : nat) (d u : string) (dh uh : gmap string string)
    (log : list Request) (e : Thrown) :
  downloadUrl p = Some d → uploadUrl p = Some u →
  ¬ absent_or_blank (Some d) → ¬ absent_or_blank (Some u) →
  parseHeaders (downloadHeadersParam p) = Ok dh →
  parseHeaders (uploadHeadersParam p) = Ok uh →
  run (HelperTransfer.transfer host p i d u (finalDownloadHeaders dh)
         (preparedUploadHeaders u uh (contentLength p))) =
    (log, Throw e) →
  run (HelperTransfer.execute host p i) =
    on_error (throwOnError p) i d u e log.
Proof.
  intros Hd Hu Hbd%not_blank Hbu%not_blank Hdh Huh Hrun.
  rewrite (helper_execute_valid host p i d u dh uh) by done.
  by erewrite try_throw by exact Hrun.
Qed.

(** C7, as amended.  A fault that escapes the [try] block of either
    operation is caught once.  Its message is kept when it contains the
    words Download URL or Upload URL, and is otherwise wrapped so that it
    names both URLs, also when it already contains one of the URLs
    themselves.  With [throwOnError] the resulting message is raised;
    without it the function returns a record with [success: false], the
    message and both URLs.  No request is added to those the block had
    sent. *)
Theorem caught_fault_is_reported (native : TransferFile.Host)
    (helper : HelperTransfer.Host)
    (p : Params) (i : nat) (d u : string) (dh uh : gmap string string) :
  downloadUrl p = Some d → uploadUrl p = Some u →
  ¬ absent_or_blank (Some d) → ¬ absent_or_blank (Some u) →
  parseHeaders (downloadHeadersParam p) = Ok dh →
  parseHeaders (uploadHeadersParam p) = Ok uh →
  (∀ log e,
     run (TransferFile.transfer native p i d u (finalDownloadHeaders dh)
            (preparedUploadHeaders u uh (contentLength p))) =
       (log, Throw e) →
     reported (throwOnError p) i d u e log
       (run (TransferFile.execute native p i))) ∧
  (∀ log e,
     run (HelperTransfer.transfer helper p i d u (finalDownloadHeaders dh)
            (preparedUploadHeaders u uh (contentLength p))) =
       (log, Throw e) →
     reported (throwOnError p) i d u e log
       (run (HelperTransfer.execute helper p i))).
Proof.
  intros Hd Hu Hbd Hbu Hdh Huh. split; intros log e Hrun.
  - rewrite (native_caught_fault native p i d u dh uh log e) by done.
    apply on_error_outcome.
  - rewrite (helper_caught_fault helper p i d u dh uh log e) by done.
    apply on_error_outcome.
Qed.

(** *** The download leg of transferFile.operation.ts *)

Lemma native_download_run (host : TransferFile.Host) p d fdh prepared o :
  URL_new d = Ok o →
  TransferFile.download host p d fdh prepared [] =
    ([Download d fdh],
     match TransferFile.client_request host (TransferFile.client_of o)
             (TransferFile.downloadOptions o fdh) with
     | TransferFile.Responded code hdrs =>
         if failed_status (default 0 code)
         then Throw (ErrorObject (download_failed_message (default 0 code) d))
         else Ok (default 0 code,
                  add_detected_length (contentLength p)
                    (hdrs !! "content-length") prepared)
     | TransferFile.Errored message =>
         Throw (ErrorObject ("Download request failed: " ++ message))
     end).
Proof.
  intros Ho. unfold TransferFile.download.
  erewrite bind_ok by (unfold lift; by rewrite Ho).
  erewrite bind_ok by reflexivity.
  destruct (TransferFile.client_request _ _ _) as [code hdrs|message]; [|done].
  by destruct (failed_status (default 0 code)).
Qed.

Lemma native_transfer_download_failed (host : TransferFile.Host)
    p i d u fdh prepared o code hdrs :
  URL_new d = Ok o →
  TransferFile.client_request host (TransferFile.client_of o)
    (TransferFile.downloadOptions o fdh) = TransferFile.Responded code hdrs →
  failed_status (default 0 code) = true →
  run (TransferFile.transfer host p i d u fdh prepared) =
    ([Download d fdh],
     Throw (ErrorObject (download_failed_message (default 0 code) d))).
Proof.
  intros Ho Hc Hf. unfold run, TransferFile.transfer.
  erewrite bind_throw; [done|].
  rewrite (native_download_run host p d fdh prepared o Ho). by rewrite Hc, Hf.
Qed.

(** Other faults that reach the [catch] clause: a connection error of the
    download, and a rejection of the upload helper. *)
Lemma native_transfer_network_error (host : TransferFile.Host)
    p i d u fdh prepared o message :
  URL_new d = Ok o →
  TransferFile.client_request host (TransferFile.client_of o)
    (TransferFile.downloadOptions o fdh) = TransferFile.Errored message →
  run (TransferFile.transfer host p i d u fdh prepared) =
    ([Download d fdh],
     Throw (ErrorObject ("Download request failed: " ++ message))).
Proof.
  intros Ho Hc. unfold run, TransferFile.transfer.
  erewrite bind_throw; [done|].
  rewrite (native_download_run host p d fdh prepared o Ho). by rewrite Hc.
Qed.

Lemma native_transfer_invalid_url (host : TransferFile.Host)
    p i d u fdh prepared e :
  URL_new d = Throw e →
  run (TransferFile.transfer host p i d u fdh prepared) = ([], Throw e).
Proof.
  intros Ho. unfold run, TransferFile.transfer, TransferFile.download.
  erewrite bind_throw; [done|].
  erewrite bind_throw; [done|]. unfold lift. by rewrite Ho.
Qed.

(** A failed download status in transferFile.operation.ts: the rejection
    reaches the [catch] clause, so the status code survives only inside the
    message, and no upload request is sent. *)
Lemma native_download_failure (host : TransferFile.Host)
    p i d u dh uh o code hdrs :
  downloadUrl p = Some d → uploadUrl p = Some u →
  ¬ absent_or_blank (Some d) → ¬ absent_or_blank (Some u) →
  parseHeaders (downloadHeadersParam p) = Ok dh →
  parseHeaders (uploadHeadersParam p) = Ok uh →
  URL_new d = Ok o →
  TransferFile.client_request host (TransferFile.client_of o)
    (TransferFile.downloadOptions o (finalDownloadHeaders dh)) =
    TransferFile.Responded code hdrs →
  failed_status (default 0 code) = true →
  ∃ m : string,
    includes (download_failed_message (default 0 code) d) m = true ∧
    (throwOnError p = true →
       run (TransferFile.execute host p i) =
         ([Download d (finalDownloadHeaders dh)], Throw (ErrorObject m))) ∧
    (throwOnError p = false →
       ∃ r, run (TransferFile.execute host p i) =
              ([Download d (finalDownloadHeaders dh)], Ok r) ∧
            json r !! "success" = Some (JBool false) ∧
            json r !! "error" = Some (JStr m) ∧
            json r !! "downloadStatus" = None).
Proof.
  intros Hd Hu Hbd%not_blank Hbu%not_blank Hdh Huh Ho Hc Hf.
  rewrite (native_execute_valid host p i d u dh uh) by done.
  erewrite try_throw by (by eapply native_transfer_download_failed).
  exists (enhance (download_failed_message (default 0 code) d) d u).
  split; [apply enhance_includes|]. split.
  - by intros ->.
  - intros ->. eexists. split; [apply on_error_return|]. cbn [json].
    pose proof (caught_record_fields
                  (enhance (download_failed_message (default 0 code) d) d u) d u).
    tauto.
Qed.

(** The older operation does return the status code of a failed
    download. *)
Lemma helper_download_failure (host : HelperTransfer.Host)
    p i d u dh uh resp code :
  downloadUrl p = Some d → uploadUrl p = Some u →
  ¬ absent_or_blank (Some d) → ¬ absent_or_blank (Some u) →
  parseHeaders (downloadHeadersParam p) = Ok dh →
  parseHeaders (uploadHeadersParam p) = Ok uh →
  HelperTransfer.helpers_request host d (finalDownloadHeaders dh) = Ok resp →
  HelperTransfer.statusCode resp = Some code →
  failed_status code = true →
  throwOnError p = false →
  ∃ r, run (HelperTransfer.execute host p i) =
         ([Download d (finalDownloadHeaders dh)], Ok r) ∧
       json r !! "error" = Some (JStr (download_failed_message code d)) ∧
       json r !! "downloadStatus" = Some (JNum code).
Proof.
  intros Hd Hu Hbd%not_blank Hbu%not_blank Hdh Huh Hreq Hcode Hf Ht.
  rewrite (helper_execute_valid host p i d u dh uh) by done.
  eexists. split.
  - apply try_ok. unfold HelperTransfer.transfer.
    erewrite bind_ok by reflexivity.
    erewrite bind_ok by (unfold lift; by rewrite Hreq).
    rewrite Hcode, Hf, Ht. reflexivity.
  - cbn [json]. unfold HelperTransfer.download_failure_record.
    split; by vm_compute.
Qed.

(** *** The upload leg *)

(** The fields of the record returned for a failed upload status. *)
Lemma upload_failure_record_fields (message : string) (code : Z)
    (downloadStatusCode : option Z) (u d : string) :
  let record := upload_failure_record message code downloadStatusCode u d in
  record !! "success" = None ∧
  record !! "error" = Some (JStr message) ∧
  record !! "uploadStatus" = Some (JNum code) ∧
  record !! "downloadStatus" = Some (js_status downloadStatusCode) ∧
  record !! "downloadUrl" = Some (JStr d) ∧
  record !! "uploadUrl" = Some (JStr u).
Proof. unfold upload_failure_record. repeat split; by vm_compute. Qed.

(** A failed upload status in transferFile.operation.ts. *)
Lemma native_upload_failure (host : TransferFile.Host)
    p i d u dh uh o dcode hdrs resp code :
  downloadUrl p = Some d → uploadUrl p = Some u →
  ¬ absent_or_blank (Some d) → ¬ absent_or_blank (Some u) →
  parseHeaders (downloadHeadersParam p) = Ok dh →
  parseHeaders (uploadHeadersParam p) = Ok uh →
  URL_new d = Ok o →
  TransferFile.client_request host (TransferFile.client_of o)
    (TransferFile.downloadOptions o (finalDownloadHeaders dh)) =
    TransferFile.Responded dcode hdrs →
  failed_status (default 0 dcode) = false →
  let h := add_detected_length (contentLength p) (hdrs !! "content-length")
             (preparedUploadHeaders u uh (contentLength p)) in
  TransferFile.helpers_request host (method p) u h = Ok resp →
  TransferFile.statusCode resp = Some code →
  failed_status code = true →
  let log := [Download d (finalDownloadHeaders dh); Upload (method p) u h] in
  let message := upload_failed_message code u (method p) in
  (throwOnError p = true →
     run (TransferFile.execute host p i) =
       (log, Throw (ErrorObject (enhance message d u)))) ∧
  (throwOnError p = false →
     run (TransferFile.execute host p i) =
       (log, Ok {| json := upload_failure_record message code
                             (Some (default 0 dcode)) u d;
                   pairedItem := i |})).
Proof.
  intros Hd Hu Hbd%not_blank Hbu%not_blank Hdh Huh Ho Hc Hf h Hreq Hcode Hfu
         log message.
  rewrite (native_execute_valid host p i d u dh uh) by done.
  assert (TransferFile.download host p d (finalDownloadHeaders dh)
            (preparedUploadHeaders u uh (contentLength p)) [] =
          ([Download d (finalDownloadHeaders dh)], Ok (default 0 dcode, h)))
    as Hdl.
  { rewrite (native_download_run host p d _ _ o Ho). by rewrite Hc, Hf. }
  assert (TransferFile.transfer host p i d u (finalDownloadHeaders dh)
            (preparedUploadHeaders u uh (contentLength p)) [] =
          (log,
           if throwOnError p then Throw (ErrorObject message)
           else Ok {| json := upload_failure_record message code
                                (Some (default 0 dcode)) u d;
                      pairedItem := i |})) as Htr.
  { unfold TransferFile.transfer.
    erewrite bind_ok by exact Hdl. cbv beta iota.
    erewrite bind_ok by reflexivity.
    erewrite bind_ok by (unfold lift; by rewrite Hreq).
    rewrite Hcode, Hfu. by destruct (throwOnError p). }
  split; intros Ht; rewrite Ht in Htr |- *.
  - by erewrite try_throw by exact Htr.
  - by erewrite try_ok by exact Htr.
Qed.

(** *** Upload headers *)

Lemma put_length_other (v : StringOrNumber) (h : gmap string string) (k : string) :
  k ≠ "Content-Length" → put_length v h !! k = h !! k.
Proof.
  intros Hk. unfold put_length.
  destruct (length_of v) as [n|]; [|done].
  destruct (0 <? n); [|done]. by rewrite lookup_insert_ne.
Qed.

Lemma add_explicit_length_other cl (h : gmap string string) (k : string) :
  k ≠ "Content-Length" → add_explicit_length cl h !! k = h !! k.
Proof.
  intros Hk. unfold add_explicit_length.
  destruct (sn_truthy cl); [by apply put_length_other | done].
Qed.

Lemma add_detected_length_other cl rl (h : gmap string string) (k : string) :
  k ≠ "Content-Length" → add_detected_length cl rl h !! k = h !! k.
Proof.
  intros Hk. unfold add_detected_length.
  destruct (if sn_truthy cl then _ else _) as [a|]; [|done].
  destruct (_ && _); [by apply put_length_other | done].
Qed.

Lemma add_bearer_other token (h : gmap string string) (k : string) :
  k ≠ "Authorization" → add_bearer token h !! k = h !! k.
Proof.
  intros Hk. unfold add_bearer.
  destruct token as [t|]; [|done].
  destruct (_ && _); [by rewrite lookup_insert_ne | done].
Qed.

Lemma initialUploadHeaders_other (uh : gmap string string) (k : string) :
  k ≠ "Content-Type" → initialUploadHeaders uh !! k = uh !! k.
Proof.
  intros Hk. unfold initialUploadHeaders.
  rewrite lookup_union, lookup_singleton_ne by done.
  by destruct (uh !! k).
Qed.

(** A user-supplied header wins over the default. *)
Lemma initialUploadHeaders_supplied (uh : gmap string string) (k v : string) :
  uh !! k = Some v → initialUploadHeaders uh !! k = Some v.
Proof.
  intros Hk. unfold initialUploadHeaders. by apply lookup_union_Some_l.
Qed.

Lemma positive_length_truthy (cl : StringOrNumber) (n : Z) :
  length_of cl = Some n → 0 < n → sn_truthy cl = true.
Proof.
  destruct cl as [s|m]; simpl.
  - intros Hparse _. by destruct s.
  - intros [= ->] Hn. apply negb_true_iff, Z.eqb_neq. lia.
Qed.

(** An explicit positive length is written over whatever the headers
    hold. *)
Lemma add_explicit_length_positive cl (n : Z) (h : gmap string string) :
  length_of cl = Some n → 0 < n →
  add_explicit_length cl h = <[ "Content-Length" := String_of_number n ]> h.
Proof.
  intros Hl Hn. unfold add_explicit_length, put_length.
  rewrite (positive_length_truthy cl n Hl Hn), Hl.
  by destruct (Z.ltb_spec 0 n); [|lia].
Qed.

Lemma add_explicit_length_unusable cl (h : gmap string string) :
  (∀ n, length_of cl = Some n → n ≤ 0) → add_explicit_length cl h = h.
Proof.
  intros Hl. unfold add_explicit_length, put_length.
  destruct (sn_truthy cl); [|done].
  destruct (length_of cl) as [n|]; [|done].
  destruct (Z.ltb_spec 0 n); [|done]. specialize (Hl n eq_refl). lia.
Qed.

(** The length detected from the response is only used when no
    [Content-Length] is set yet. *)
Lemma add_detected_length_set cl rl (h : gmap string string) :
  header_set h "Content-Length" = true → add_detected_length cl rl h = h.
Proof.
  intros Hs. unfold add_detected_length. rewrite Hs.
  destruct (if sn_truthy cl then _ else _); [|done].
  by rewrite andb_false_r.
Qed.

Lemma add_detected_after_explicit cl rl (n : Z) (h : gmap string string) :
  length_of cl = Some n → 0 < n →
  add_detected_length cl rl (add_explicit_length cl h) !! "Content-Length" =
    Some (String_of_number n).
Proof.
  intros Hl Hn. rewrite (add_explicit_length_positive cl n h Hl Hn).
  unfold add_detected_length.
  rewrite (positive_length_truthy cl n Hl Hn).
  destruct (_ && _).
  - unfold put_length. rewrite Hl.
    destruct (Z.ltb_spec 0 n); [|lia]. by rewrite lookup_insert_eq.
  - by rewrite lookup_insert_eq.
Qed.

(** *** Requests sent *)

Lemma on_error_log (b : bool) (i : nat) (d u : string) (e : Thrown) log :
  (on_error b i d u e log).1 = log.
Proof. by destruct b. Qed.

(** The upload request of transferFile.operation.ts, when there is one,
    carries the prepared headers completed by the detected length. *)
Lemma native_transfer_upload_headers (host : TransferFile.Host)
    p i d u fdh prepared (h : gmap string string) :
  upload_headers (run (TransferFile.transfer host p i d u fdh prepared)).1 =
    Some h →
  ∃ rl, h = add_detected_length (contentLength p) rl prepared.
Proof.
  unfold run, TransferFile.transfer, TransferFile.download.
  unfold mbind, M_bind, lift, emit, throw, mret, M_ret.
  destruct (URL_new d) as [o|e]; [|done]. cbn.
  destruct (TransferFile.client_request _ _ _) as [code hdrs|message]; [|done].
  destruct (failed_status (default 0 code)); [done|]. cbn.
  intros Hh. exists (hdrs !! "content-length").
  destruct (TransferFile.helpers_request _ _ _ _) as [resp|e]; cbn in Hh.
  - destruct (TransferFile.statusCode resp) as [c|]; cbn in Hh.
    + destruct (failed_status c), (throwOnError p); cbn in Hh; congruence.
    + congruence.
  - congruence.
Qed.

Lemma native_execute_upload_headers (host : TransferFile.Host)
    p i d u dh uh (h : gmap string string) :
  downloadUrl p = Some d → uploadUrl p = Some u →
  ¬ absent_or_blank (Some d) → ¬ absent_or_blank (Some u) →
  parseHeaders (downloadHeadersParam p) = Ok dh →
  parseHeaders (uploadHeadersParam p) = Ok uh →
  upload_headers (run (TransferFile.execute host p i)).1 = Some h →
  ∃ rl, h = add_detected_length (contentLength p) rl
              (preparedUploadHeaders u uh (contentLength p)).
Proof.
  intros Hd Hu Hbd%not_blank Hbu%not_blank Hdh Huh.
  rewrite (native_execute_valid host p i d u dh uh) by done.
  intros Hh. apply (native_transfer_upload_headers host p i d u
                      (finalDownloadHeaders dh)).
  revert Hh. unfold try_catch_M, run.
  destruct (TransferFile.transfer _ _ _ _ _ _ _ []) as [log [r|e]]; [done|].
  by rewrite on_error_log.
Qed.

Lemma prepared_content_length_supplied u (uh : gmap string string) cl (v : string) :
  uh !! "Content-Length" = Some v →
  (∀ n, length_of cl = Some n → n ≤ 0) →
  preparedUploadHeaders u uh cl !! "Content-Length" = Some v.
Proof.
  intros Hv Hcl. unfold preparedUploadHeaders.
  rewrite add_explicit_length_unusable by done.
  rewrite add_bearer_other by done.
  by apply initialUploadHeaders_supplied.
Qed.

(** C2, as amended.  When the [contentLength] parameter denotes a positive
    length, the upload request carries that length as [Content-Length],
    whatever the user-supplied upload headers hold under that name.  A
    user-supplied non-empty [Content-Length] is kept when the parameter does
    not denote a positive length; the length announced by the download
    response never replaces it. *)
Theorem content_length_precedence (host : TransferFile.Host)
    (p : Params) (i : nat) (d u : string) (dh uh h : gmap string string)
    (v : string) :
  downloadUrl p = Some d → uploadUrl p = Some u →
  ¬ absent_or_blank (Some d) → ¬ absent_or_blank (Some u) →
  parseHeaders (downloadHeadersParam p) = Ok dh →
  parseHeaders (uploadHeadersParam p) = Ok uh →
  uh !! "Content-Length" = Some v →
  upload_headers (run (TransferFile.execute host p i)).1 = Some h →
  (∀ n, length_of (contentLength p) = Some n → 0 < n →
        h !! "Content-Length" = Some (String_of_number n)) ∧
  ((∀ n, length_of (contentLength p) = Some n → n ≤ 0) →
   v ≠ EmptyString →
   h !! "Content-Length" = Some v).
Proof.
  intros Hd Hu Hbd Hbu Hdh Huh Hv Hh.
  destruct (native_execute_upload_headers host p i d u dh uh h) as [rl ->];
    try done.
  split.
  - intros n Hl Hn. unfold preparedUploadHeaders.
    by apply add_detected_after_explicit.
  - intros Hcl Hne.
    pose proof (prepared_content_length_supplied u uh (contentLength p) v Hv Hcl)
      as Hprep.
    rewrite add_detected_length_set; [done|].
    unfold header_set. rewrite Hprep. unfold nonempty.
    by destruct (String.eqb_spec v EmptyString).
Qed.

(** *** The bearer token *)

Lemma token_of_bearer (u : string) (o : URL) (x : string) :
  URL_new u = Ok o → searchParams_get "bearer" o = Some x → x ≠ EmptyString →
  token (extractBearerToken u) = Some x.
Proof.
  intros Ho Hx Hne. unfold extractBearerToken. rewrite Ho, Hx.
  unfold nonempty. by destruct (String.eqb_spec x EmptyString).
Qed.

Lemma header_set_None (h : gmap string string) (k : string) :
  h !! k = None → header_set h k = false.
Proof. intros Hk. unfold header_set. by rewrite Hk. Qed.

(** Without any [Authorization] header in the user-supplied headers, the
    token found in the upload URL is sent as a bearer credential. *)
Lemma bearer_injected (u : string) (uh : gmap string string) cl rl (x : string) :
  token (extractBearerToken u) = Some x → x ≠ EmptyString →
  ¬ has_header uh "Authorization" →
  add_detected_length cl rl (preparedUploadHeaders u uh cl) !! "Authorization" =
    Some ("Bearer " ++ x).
Proof.
  intros Ht Hx Hno.
  assert (∀ k, lower k = lower "Authorization" → uh !! k = None) as Hnone.
  { intros k Hk. destruct (uh !! k) eqn:Ek; [|done].
    exfalso. apply Hno. exists k. by rewrite Ek. }
  rewrite add_detected_length_other by done. unfold preparedUploadHeaders.
  rewrite add_explicit_length_other by done. rewrite Ht. unfold add_bearer.
  rewrite !header_set_None.
  - unfold nonempty. destruct (String.eqb_spec x EmptyString); [done|].
    cbn [negb andb]. by rewrite lookup_insert_eq.
  - rewrite initialUploadHeaders_other by done. by apply Hnone.
  - rewrite initialUploadHeaders_other by done. by apply Hnone.
Qed.

(** A non-empty header supplied as [Authorization] or [authorization] is
    kept, and the token is not injected. *)
Lemma bearer_not_injected (u : string) (uh : gmap string string) cl rl
    (k v : string) :
  k = "Authorization" ∨ k = "authorization" →
  uh !! k = Some v → v ≠ EmptyString →
  let h := add_detected_length cl rl (preparedUploadHeaders u uh cl) in
  h !! k = Some v ∧ h !! "Authorization" = uh !! "Authorization".
Proof.
  intros Hk Hv Hne h. subst h.
  assert (header_set (initialUploadHeaders uh) k = true) as Hset.
  { unfold header_set. rewrite (initialUploadHeaders_supplied uh k v Hv).
    unfold nonempty. by destruct (String.eqb_spec v EmptyString). }
  assert (add_bearer (token (extractBearerToken u)) (initialUploadHeaders uh) =
          initialUploadHeaders uh) as Hsame.
  { unfold add_bearer. destruct (token _) as [t|]; [|done].
    destruct Hk as [-> | ->]; rewrite Hset; simpl;
      by rewrite ?andb_false_r. }
  unfold preparedUploadHeaders. rewrite Hsame. split.
  - rewrite add_detected_length_other, add_explicit_length_other
      by (by destruct Hk as [-> | ->]).
    by apply initialUploadHeaders_supplied.
  - rewrite add_detected_length_other, add_explicit_length_other by done.
    by apply initialUploadHeaders_other.
Qed.

(** *** A download body that is not a stream *)

Lemma object_not_streamable_text (d : string) (v : JsValue) :
  let m := HelperTransfer.object_not_streamable d v in
  includes "is not a streamable format" m = true ∧
  includes (typeof_name (typeof v)) m = true ∧
  includes (HelperTransfer.bodyPreview v) m = true ∧
  (utf16_length (HelperTransfer.bodyPreview v) ≤ 200)%nat.
Proof.
  cbv zeta. unfold HelperTransfer.object_not_streamable.
  repeat split; [find_segment .. |].
  apply utf16_length_take_units.
Qed.

Lemma helper_transfer_parsed_body (host : HelperTransfer.Host)
    p i d u fdh prepared resp v :
  HelperTransfer.helpers_request host d fdh = Ok resp →
  (∀ c, HelperTransfer.statusCode resp = Some c → failed_status c = false) →
  HelperTransfer.body resp = HelperTransfer.ParsedBody v →
  is_object v = true →
  run (HelperTransfer.transfer host p i d u fdh prepared) =
    ([Download d fdh],
     Throw (ErrorObject (HelperTransfer.object_not_streamable d v))).
Proof.
  intros Hreq Hstatus Hbody Hobj. unfold run, HelperTransfer.transfer.
  erewrite bind_ok by reflexivity.
  erewrite bind_ok by (unfold lift; by rewrite Hreq).
  assert (HelperTransfer.forward host p i d u prepared resp [Download d fdh] =
          ([Download d fdh],
           Throw (ErrorObject (HelperTransfer.object_not_streamable d v))))
    as Hfw.
  { unfold HelperTransfer.forward. cbv zeta.
    erewrite bind_throw; [done|].
    unfold lift, HelperTransfer.obtain_stream. by rewrite Hbody, Hobj. }
  destruct (HelperTransfer.statusCode resp) as [c|]; [|done].
  by rewrite (Hstatus c eq_refl).
Qed.

(** C4, as amended.  In the operation that downloads through the request
    helper, a download that answers with an accepted status and a body that
    is a parsed object, neither bytes nor a stream, produces a message that
    says the response is not a streamable format and gives the type of the
    body and a preview of at most 200 UTF-16 code units.  The message goes
    through the [catch] clause like any other fault: it is raised when
    [throwOnError] is set and returned in a record with [success: false],
    the message and both URLs when it is not.  In both cases the download
    is the only request sent. *)
Theorem parsed_body_is_reported (host : HelperTransfer.Host)
    (p : Params) (i : nat) (d u : string) (dh uh : gmap string string)
    (resp : HelperTransfer.DownloadResponse) (v : JsValue) :
  downloadUrl p = Some d → uploadUrl p = Some u →
  ¬ absent_or_blank (Some d) → ¬ absent_or_blank (Some u) →
  parseHeaders (downloadHeadersParam p) = Ok dh →
  parseHeaders (uploadHeadersParam p) = Ok uh →
  HelperTransfer.helpers_request host d (finalDownloadHeaders dh) = Ok resp →
  (∀ c, HelperTransfer.statusCode resp = Some c → failed_status c = false) →
  HelperTransfer.body resp = HelperTransfer.ParsedBody v →
  is_object v = true →
  ∃ m : string,
    includes "is not a streamable format" m = true ∧
    includes (typeof_name (typeof v)) m = true ∧
    includes (HelperTransfer.bodyPreview v) m = true ∧
    (utf16_length (HelperTransfer.bodyPreview v) ≤ 200)%nat ∧
    (throwOnError p = true →
       run (HelperTransfer.execute host p i) =
         ([Download d (finalDownloadHeaders dh)], Throw (ErrorObject m))) ∧
    (throwOnError p = false →
       ∃ r, run (HelperTransfer.execute host p i) =
              ([Download d (finalDownloadHeaders dh)], Ok r) ∧
            json r !! "success" = Some (JBool false) ∧
            json r !! "error" = Some (JStr m) ∧
            json r !! "downloadUrl" = Some (JStr d) ∧
            json r !! "uploadUrl" = Some (JStr u)).
Proof.
  intros Hd Hu Hbd Hbu Hdh Huh Hreq Hstatus Hbody Hobj.
  pose proof (helper_transfer_parsed_body host p i d u
                (finalDownloadHeaders dh)
                (preparedUploadHeaders u uh (contentLength p)) resp v
                Hreq Hstatus Hbody Hobj) as Hrun.
  rewrite (helper_caught_fault host p i d u dh uh _ _ Hd Hu Hbd Hbu Hdh Huh Hrun).
  destruct (object_not_streamable_text d v) as (Hfmt & Hty & Hprev & Hlen).
  set (msg := HelperTransfer.object_not_streamable d v) in *.
  exists (enhance msg d u).
  pose proof (enhance_includes msg d u) as Hin.
  split; [by eapply includes_trans|]. split; [by eapply includes_trans|].
  split; [by eapply includes_trans|]. split; [done|]. split.
  - by intros ->.
  - intros ->. eexists. split; [apply on_error_return|]. cbn [json].
    pose proof (caught_record_fields (enhance msg d u) d u). tauto.
Qed.

End WithRuntime.

(** *** On the reference runtime *)

Import Examples.

Lemma no_break_space_is_whitespace : bytes [194; 160]%nat ∈ whitespace.
Proof. refine (bool_decide_unpack _ _). vm_compute. exact I. Qed.

Lemma line_separator_is_whitespace : bytes [226; 128; 168]%nat ∈ whitespace.
Proof. refine (bool_decide_unpack _ _). vm_compute. exact I. Qed.

Lemma space_is_whitespace : " " ∈ whitespace.
Proof. refine (bool_decide_unpack _ _). vm_compute. exact I. Qed.

Lemma blank_url_is_rejected_witness :
  absent_or_blank (downloadUrl unicode_blank_request) ∧
  ∃ message : string,
    (absent_or_blank (downloadUrl unicode_blank_request) →
       message = download_required) ∧
    (¬ absent_or_blank (downloadUrl unicode_blank_request) →
       message = upload_required) ∧
    run (TransferFile.execute (native_host 200 201)
           (with_throwOnError false unicode_blank_request) 0) =
      ([], Throw (ErrorObject message)) ∧
    run (HelperTransfer.execute (helper_host 200 HelperTransfer.StreamBody 201)
           (with_throwOnError false unicode_blank_request) 0) =
      ([], Throw (ErrorObject message)).
Proof.
  assert (absent_or_blank (downloadUrl unicode_blank_request)) as Hblank.
  { exists [bytes [194; 160]%nat; bytes [226; 128; 168]%nat; " "].
    split; [|reflexivity].
    repeat apply Forall_cons_2; [ apply no_break_space_is_whitespace
                                | apply line_separator_is_whitespace
                                | apply space_is_whitespace
                                | apply Forall_nil_2 ]. }
  split; [exact Hblank|].
  apply blank_url_is_rejected. left. exact Hblank.
Defined.

Lemma source_not_blank : ¬ absent_or_blank (Some source).
Proof. intros Hb%blank_spec. vm_compute in Hb. discriminate. Qed.

Lemma target_not_blank : ¬ absent_or_blank (Some target).
Proof. intros Hb%blank_spec. vm_compute in Hb. discriminate. Qed.

(** C7, the claim as stated fails: the message for a 404 from the source
    already names the download URL, and the [catch] clause wraps it all the
    same, adding both URLs. *)
Lemma message_with_url_is_still_wrapped :
  let original := download_failed_message 404 source in
  includes source original = true ∧
  run (TransferFile.execute (native_host 404 201)
         (request (JStr "{}") no_length true) 0) =
    ([Download source {[ "Accept" := "*/*" ]}],
     Throw (ErrorObject ("File transfer failed: " ++ original ++
                         ". Download URL: " ++ source ++
                         ", Upload URL: " ++ target))).
Proof. split; vm_compute; reflexivity. Qed.

Lemma caught_fault_is_reported_witness :
  reported false 0 source target
    (ErrorObject "Download request failed: connect ECONNREFUSED")
    [Download source {[ "Accept" := "*/*" ]}]
    (run (TransferFile.execute refusing_host
            (request (JStr "{}") no_length false) 0)) ∧
  reported false 0 source target
    (ErrorObject (HelperTransfer.object_not_streamable source parsed_body))
    [Download source {[ "Accept" := "*/*" ]}]
    (run (HelperTransfer.execute
            (helper_host 200 (HelperTransfer.ParsedBody parsed_body) 201)
            (request (JStr "{}") no_length false) 0)).
Proof.
  destruct (caught_fault_is_reported refusing_host
              (helper_host 200 (HelperTransfer.ParsedBody parsed_body) 201)
              (request (JStr "{}") no_length false) 0 source target ∅ ∅)
    as [Hnative Hhelper].
  - reflexivity.
  - reflexivity.
  - exact source_not_blank.
  - exact target_not_blank.
  - vm_compute; reflexivity.
  - vm_compute; reflexivity.
  - split.
    + apply Hnative. vm_compute; reflexivity.
    + apply Hhelper. vm_compute; reflexivity.
Defined.

(** C2, the claim as stated fails: with [contentLength] 1048576 and a
    user-supplied [Content-Length] of 5, the upload request carries
    1048576. *)
Lemma explicit_length_replaces_header :
  let p := request (JObj [("Content-Length", JStr "5")]) (AsNumber 1048576) true in
  parseHeaders (uploadHeadersParam p) = Ok {[ "Content-Length" := "5" ]} ∧
  upload_headers (run (TransferFile.execute (native_host 200 201) p 0)).1
    ≫= (.!! "Content-Length") = Some "1048576".
Proof. split; vm_compute; reflexivity. Qed.

Lemma content_length_precedence_witness :
  ∃ h : gmap string string,
    upload_headers
      (run (TransferFile.execute (native_host 200 201)
              (request (JObj [("Content-Length", JStr "5")])
                 (AsString "2048") true) 0)).1 = Some h ∧
    h !! "Content-Length" = Some "2048".
Proof.
  eexists. split; [vm_compute; reflexivity|].
  edestruct (content_length_precedence (native_host 200 201)
               (request (JObj [("Content-Length", JStr "5")])
                  (AsString "2048") true) 0 source target ∅
               {[ "Content-Length" := "5" ]}) as [Hpositive _].
  - reflexivity.
  - reflexivity.
  - exact source_not_blank.
  - exact target_not_blank.
  - vm_compute; reflexivity.
  - vm_compute; reflexivity.
  - vm_compute; reflexivity.
  - vm_compute; reflexivity.
  - exact (Hpositive 2048 eq_refl eq_refl).
Defined.

(** C4, the claim as stated fails: with [throwOnError] off, a parsed
    download body does not raise; the function returns a record. *)
Lemma parsed_body_returns_record :
  ∃ r,
    run (HelperTransfer.execute
           (helper_host 200 (HelperTransfer.ParsedBody parsed_body) 201)
           (request (JStr "{}") no_length false) 0) =
      ([Download source {[ "Accept" := "*/*" ]}], Ok r) ∧
    json r !! "success" = Some (JBool false).
Proof. eexists. split; vm_compute; reflexivity. Qed.

Lemma parsed_body_is_reported_witness :
  ∃ m : string,
    includes "is not a streamable format" m = true ∧
    includes "object" m = true ∧
    includes (HelperTransfer.bodyPreview parsed_body) m = true ∧
    run (HelperTransfer.execute
           (helper_host 200 (HelperTransfer.ParsedBody parsed_body) 201)
           (request (JStr "{}") no_length true) 0) =
      ([Download source {[ "Accept" := "*/*" ]}], Throw (ErrorObject m)).
Proof.
  destruct (parsed_body_is_reported
              (helper_host 200 (HelperTransfer.ParsedBody parsed_body) 201)
              (request (JStr "{}") no_length true) 0 source target ∅ ∅
              {| HelperTransfer.statusCode := Some 200;
                 HelperTransfer.headers := None;
                 HelperTransfer.body := HelperTransfer.ParsedBody parsed_body |}
              parsed_body)
    as (m & Hfmt & Hty & Hprev & _ & Hhard & _).
  - reflexivity.
  - reflexivity.
  - exact source_not_blank.
  - exact target_not_blank.
  - vm_compute; reflexivity.
  - vm_compute; reflexivity.
  - reflexivity.
  - intros c [= <-]. reflexivity.
  - reflexivity.
  - reflexivity.
  - exists m. split; [exact Hfmt|]. split; [exact Hty|].
    split; [exact Hprev|]. exact (Hhard eq_refl).
Defined.

(** The preview is cut after 200 characters, which here are 391 bytes. *)
Lemma preview_counts_code_units :
  utf16_length (default EmptyString (stringify accented_body)) = 311%nat ∧
  utf16_length (HelperTransfer.bodyPreview accented_body) = 200%nat ∧
  String.length (HelperTransfer.bodyPreview accented_body) = 391%nat.
Proof. repeat split; vm_compute; reflexivity. Qed.

(** C1.  transferFile.operation.ts at a 404 from the source.  With
    [throwOnError] off the function returns the record of the [catch]
    clause: it has [success: false], both URLs and a message that contains
    the text built for the failed download, but no [downloadStatus] field.
    With [throwOnError] on the same message is raised.  In both cases the
    download is the only request sent. *)
Theorem download_404_record_lacks_status :
  let message := "File transfer failed: Download failed with HTTP 404 from https://files.example.com/data.bin. Please verify the download URL is accessible and returns a successful response.. Download URL: https://files.example.com/data.bin, Upload URL: https://up.example.com/u?bearer=tok" in
  (∃ r,
     run (TransferFile.execute (native_host 404 201)
            (request (JStr "{}") no_length false) 0) =
       ([Download source {[ "Accept" := "*/*" ]}], Ok r) ∧
     json r !! "downloadStatus" = None ∧
     json r !! "success" = Some (JBool false) ∧
     json r !! "error" = Some (JStr message)) ∧
  run (TransferFile.execute (native_host 404 201)
         (request (JStr "{}") no_length true) 0) =
    ([Download source {[ "Accept" := "*/*" ]}], Throw (ErrorObject message)).
Proof.
  split; [eexists; repeat split|]; vm_compute; reflexivity.
Qed.

(** The older operation, on the same input, returns the status code. *)
Lemma helper_download_404_record_has_status :
  ∃ r,
    run (HelperTransfer.execute
           (helper_host 404 HelperTransfer.StreamBody 201)
           (request (JStr "{}") no_length false) 0) =
      ([Download source {[ "Accept" := "*/*" ]}], Ok r) ∧
    json r !! "downloadStatus" = Some (JNum 404).
Proof. eexists. split; vm_compute; reflexivity. Qed.

(** C3.  transferFile.operation.ts at a 200 from the source and a 401 from
    the destination, with [throwOnError] off: the record has the message,
    both status codes and both URLs, but no [success] field. *)
Theorem upload_401_record_lacks_success :
  ∃ r,
    (run (TransferFile.execute (native_host 200 401)
            (request (JStr "{}") no_length false) 0)).2 = Ok r ∧
    json r !! "success" = None ∧
    json r !! "error" =
      Some (JStr (upload_failed_message 401 target POST)) ∧
    json r !! "uploadStatus" = Some (JNum 401) ∧
    json r !! "downloadStatus" = Some (JNum 200) ∧
    json r !! "downloadUrl" = Some (JStr source) ∧
    json r !! "uploadUrl" = Some (JStr target).
Proof. eexists. repeat split; vm_compute; reflexivity. Qed.

(** The older operation builds the same record. *)
Lemma helper_upload_401_record_lacks_success :
  ∃ r,
    (run (HelperTransfer.execute
            (helper_host 200 HelperTransfer.StreamBody 401)
            (request (JStr "{}") no_length false) 0)).2 = Ok r ∧
    json r !! "success" = None ∧
    json r !! "uploadStatus" = Some (JNum 401).
Proof. eexists. repeat split; vm_compute; reflexivity. Qed.

(** C5.  An upload URL with [?bearer=tok] and a user-supplied header
    spelled [AUTHORIZATION]: the test for an existing header looks at two
    spellings only, so the token is injected next to the supplied header. *)
Theorem bearer_injected_beside_uppercase_header :
  let p := request (JObj [("AUTHORIZATION", JStr "Basic abc")]) no_length true in
  ∃ h : gmap string string,
    upload_headers (run (TransferFile.execute (native_host 200 201) p 0)).1 =
      Some h ∧
    has_header {[ "AUTHORIZATION" := "Basic abc" ]} "Authorization" ∧
    h !! "AUTHORIZATION" = Some "Basic abc" ∧
    h !! "Authorization" = Some "Bearer tok".
Proof.
  eexists. split; [vm_compute; reflexivity|]. split.
  - exists "AUTHORIZATION".
    split; [eexists; vm_compute; reflexivity | reflexivity].
  - split; vm_compute; reflexivity.
Qed.

End TransferProperties.

(** ** Further properties of GenericFunctions.ts *)

Module GenericExtras.
Import Js GenericFunctions Notions StringFacts HeaderProperties.

Lemma foldl_store_entry_origin (fields : list (string * JsValue))
    (acc : gmap string string) (k t : string) :
  foldl store_entry acc fields !! k = Some t →
  acc !! k = Some t ∨ ∃ v, (k, v) ∈ fields ∧ header_value v = Some t.
Proof.
  revert acc. induction fields as [|[j w] fields IH]; intros acc Hk; [by left|].
  cbn [foldl] in Hk. destruct (IH _ Hk) as [Hacc|(v & Hin & Hv)].
  - rewrite store_entry_lookup in Hacc.
    destruct (decide (j = k)) as [->|Hne]; [|by left].
    destruct (decide (k = "__proto__")) as [_|_]; [by left|].
    destruct (header_value w) as [t'|] eqn:Hw; simpl in Hacc; [|by left].
    right. exists w. split; [apply list_elem_of_here | congruence].
  - right. exists v. split; [by apply list_elem_of_further | done].
Qed.

Section WithRuntime.
Context `{!Runtime}.

Lemma parseHeaders_boolean (b : bool) : parseHeaders (JBool b) = Ok ∅.
Proof. by destruct b. Qed.

Lemma parseHeaders_number (n : Z) : parseHeaders (JNum n) = Ok ∅.
Proof. unfold parseHeaders. by destruct (truthy (JNum n)). Qed.

(** X1.  [extractBearerToken] hands the URL back unchanged, and it returns a
    token exactly when the URL parses and its first [bearer] query parameter
    is a non-empty string; that string is the token.  An unparsable URL
    gives no token and no error. *)
Theorem extractBearerToken_spec (uploadUrl x : string) :
  cleanUrl (extractBearerToken uploadUrl) = uploadUrl ∧
  (token (extractBearerToken uploadUrl) = Some x ↔
   ∃ url, URL_new uploadUrl = Ok url ∧
          searchParams_get "bearer" url = Some x ∧
          x ≠ EmptyString).
Proof.
  unfold extractBearerToken.
  destruct (URL_new uploadUrl) as [url|e]; cbn [cleanUrl token].
  - destruct (searchParams_get "bearer" url) as [bearer|] eqn:Hb.
    + unfold nonempty.
      destruct (String.eqb_spec bearer EmptyString) as [->|Hne];
        cbn [negb cleanUrl token]; (split; [done|]); split.
      * done.
      * intros (url' & [= <-] & Hx & Hne). congruence.
      * intros [= <-]. eauto.
      * intros (url' & [= <-] & Hx & _). congruence.
    + split; [done|]. split; [done|].
      intros (url' & [= <-] & Hx & _). congruence.
  - split; [done|]. split; [done|]. by intros (url' & ? & _).
Qed.

(** X2.  Headers come from objects only: when [parseHeaders] returns a
    non-empty mapping, its input was an object or an array, or a string that
    parses to one.  Valid JSON for a number, a string, a boolean or [null]
    gives no header. *)
Theorem parseHeaders_needs_object (x : JsValue) (h : gmap string string) :
  parseHeaders x = Ok h → h ≠ ∅ →
  is_object x = true ∨
  ∃ s parsed, x = JStr s ∧ JSON_parse s = Ok parsed ∧ is_object parsed = true.
Proof.
  intros Hx Hne.
  destruct (truthy x) eqn:Ht.
  2:{ rewrite parseHeaders_falsy in Hx by done. congruence. }
  destruct x as [| |b|n|s|xs|fields]; try done.
  - rewrite parseHeaders_boolean in Hx. congruence.
  - rewrite parseHeaders_number in Hx. congruence.
  - right. assert (s ≠ EmptyString) as Hs by (by intros ->).
    rewrite parseHeaders_string in Hx by done.
    destruct (JSON_parse s) as [parsed|e] eqn:Hp; [|congruence].
    destruct (is_object parsed) eqn:Ho; [|congruence].
    by exists s, parsed.
  - by left.
  - by left.
Qed.

(** X3.  [parseHeaders] never invents a header: every entry of the result
    is the text of a string or number field of the object it read, under
    that field's name.  This holds whatever duplicates the list of entries
    may have. *)
Theorem parseHeaders_entries_come_from_input (x : JsValue)
    (h : gmap string string) (k t : string) :
  parseHeaders x = Ok h → h !! k = Some t →
  ∃ o v,
    (o = x ∨ ∃ s, x = JStr s ∧ JSON_parse s = Ok o) ∧
    (k, v) ∈ Object_entries o ∧
    header_value v = Some t.
Proof.
  intros Hx Hk.
  assert (∀ o, h = collect o →
               ∃ v, (k, v) ∈ Object_entries o ∧ header_value v = Some t)
    as Hcollect.
  { intros o ->. unfold collect in Hk.
    by destruct (foldl_store_entry_origin _ _ _ _ Hk) as [?|?]. }
  destruct (truthy x) eqn:Ht.
  2:{ rewrite parseHeaders_falsy in Hx by done.
      injection Hx as <-. by rewrite lookup_empty in Hk. }
  destruct x as [| |b|n|s|xs|fields]; try done.
  - rewrite parseHeaders_boolean in Hx.
    injection Hx as <-. by rewrite lookup_empty in Hk.
  - rewrite parseHeaders_number in Hx.
    injection Hx as <-. by rewrite lookup_empty in Hk.
  - assert (s ≠ EmptyString) as Hs by (by intros ->).
    rewrite parseHeaders_string in Hx by done.
    destruct (JSON_parse s) as [parsed|e] eqn:Hp.
    + destruct (is_object parsed).
      * injection Hx as <-. destruct (Hcollect parsed eq_refl) as (v & ? & ?).
        exists parsed, v. split; [right; by exists s | done].
      * injection Hx as <-. by rewrite lookup_empty in Hk.
    + injection Hx as <-. by rewrite lookup_empty in Hk.
  - injection Hx as <-. destruct (Hcollect (JArr xs) eq_refl) as (v & ? & ?).
    exists (JArr xs), v. split; [by left | done].
  - injection Hx as <-. destruct (Hcollect (JObj fields) eq_refl) as (v & ? & ?).
    exists (JObj fields), v. split; [by left | done].
Qed.

End WithRuntime.

Lemma extractBearerToken_spec_witness :
  cleanUrl (extractBearerToken Examples.target) = Examples.target ∧
  token (extractBearerToken Examples.target) = Some "tok".
Proof.
  destruct (extractBearerToken_spec Examples.target "tok") as [Hclean [_ Hback]].
  split; [exact Hclean|]. apply Hback.
  eexists. split; [vm_compute; reflexivity|].
  split; [vm_compute; reflexivity | discriminate].
Defined.

Lemma parseHeaders_needs_object_witness :
  ∃ parsed,
    JSON_parse Examples.mixed_headers = Ok parsed ∧ is_object parsed = true.
Proof.
  destruct (parseHeaders_needs_object (JStr Examples.mixed_headers)
              (omap header_value (fields_map Examples.mixed_fields)))
    as [Hobj|(s & parsed & [= <-] & Hp & Ho)].
  - vm_compute; reflexivity.
  - intros Hempty.
    assert (omap header_value (fields_map Examples.mixed_fields) !! "a" =
            Some "1") as Ha by (vm_compute; reflexivity).
    rewrite Hempty in Ha. discriminate.
  - discriminate.
  - exists parsed. split; assumption.
Defined.

Lemma parseHeaders_entries_come_from_input_witness :
  ∃ o v,
    (o = JStr Examples.mixed_headers ∨
     ∃ s, JStr Examples.mixed_headers = JStr s ∧ JSON_parse s = Ok o) ∧
    ("c", v) ∈ Object_entries o ∧ header_value v = Some "x".
Proof.
  apply (parseHeaders_entries_come_from_input (JStr Examples.mixed_headers)
           (omap header_value (fields_map Examples.mixed_fields))).
  - vm_compute; reflexivity.
  - vm_compute; reflexivity.
Defined.

End GenericExtras.

(** ** Further properties of the two operations *)

Module TransferExtras.
Import Js GenericFunctions Operation Notions MoreNotions.
Import StringFacts MonadFacts HeaderProperties TransferProperties.

Section WithRuntime.
Context `{!Runtime}.

(** *** Every path through the [try] blocks *)

Lemma native_transfer_run (host : TransferFile.Host) p i d u fdh prepared :
  run (TransferFile.transfer host p i d u fdh prepared) =
    match URL_new d with
    | Throw e => ([], Throw e)
    | Ok o =>
        match TransferFile.client_request host (TransferFile.client_of o)
                (TransferFile.downloadOptions o fdh) with
        | TransferFile.Errored message =>
            ([Download d fdh],
             Throw (ErrorObject ("Download request failed: " ++ message)))
        | TransferFile.Responded code hdrs =>
            if failed_status (default 0 code)
            then ([Download d fdh],
                  Throw (ErrorObject (download_failed_message (default 0 code) d)))
            else
              let h := add_detected_length (contentLength p)
                         (hdrs !! "content-length") prepared in
              ([Download d fdh; Upload (method p) u h],
               match TransferFile.helpers_request host (method p) u h with
               | Throw e => Throw e
               | Ok resp =>
                   let succeed :=
                     Ok {| json := TransferFile.success_record (default 0 code)
                                     (TransferFile.statusCode resp)
                                     (TransferFile.body resp);
                           pairedItem := i |} in
                   match TransferFile.statusCode resp with
                   | Some c =>
                       if failed_status c then
                         if throwOnError p
                         then Throw (ErrorObject
                                       (upload_failed_message c u (method p)))
                         else Ok {| json := upload_failure_record
                                              (upload_failed_message c u (method p))
                                              c (Some (default 0 code)) u d;
                                    pairedItem := i |}
                       else succeed
                   | None => succeed
                   end
               end)
        end
    end.
Proof.
  destruct (URL_new d) as [o|e] eqn:Ho.
  2:{ by apply native_transfer_invalid_url. }
  destruct (TransferFile.client_request _ _ _) as [code hdrs|message] eqn:Hc.
  2:{ by eapply native_transfer_network_error. }
  destruct (failed_status (default 0 code)) eqn:Hf.
  { by eapply native_transfer_download_failed. }
  cbv zeta. unfold run, TransferFile.transfer.
  erewrite bind_ok
    by (rewrite (native_download_run host p d fdh prepared o Ho);
        by rewrite Hc, Hf).
  cbv beta iota. erewrite bind_ok by reflexivity.
  destruct (TransferFile.helpers_request _ _ _ _) as [resp|e] eqn:Hr.
  - erewrite bind_ok by reflexivity.
    destruct (TransferFile.statusCode resp) as [c|]; [|done].
    by destruct (failed_status c), (throwOnError p).
  - by erewrite bind_throw by reflexivity.
Qed.

Lemma helper_transfer_run (host : HelperTransfer.Host) p i d u fdh prepared :
  run (HelperTransfer.transfer host p i d u fdh prepared) =
    match HelperTransfer.helpers_request host d fdh with
    | Throw e => ([Download d fdh], Throw e)
    | Ok resp =>
        let forward :=
          match HelperTransfer.obtain_stream d (HelperTransfer.body resp) with
          | Throw e => ([Download d fdh], Throw e)
          | Ok _ =>
              let h := add_detected_length (contentLength p)
                         (default ∅ (HelperTransfer.headers resp)
                            !! "content-length") prepared in
              ([Download d fdh; Upload (method p) u h],
               match HelperTransfer.helpers_httpRequest host (method p) u h with
               | Throw e => Throw e
               | Ok uploadResponse =>
                   let status := HelperTransfer.statusCode_of uploadResponse in
                   if HelperTransfer.defined status && HelperTransfer.failed_value status
                   then
                     let message :=
                       HelperTransfer.upload_failed_text (ToString status) u (method p) in
                     if throwOnError p
                     then Throw (ErrorObject message)
                     else Ok {| json := HelperTransfer.upload_refused_record message
                                          status (HelperTransfer.statusCode resp) u d;
                                pairedItem := i |}
                   else
                     Ok {| json := HelperTransfer.success_record
                                     (HelperTransfer.statusCode resp) status uploadResponse;
                           pairedItem := i |}
               end)
          end in
        match HelperTransfer.statusCode resp with
        | Some code =>
            if failed_status code then
              ([Download d fdh],
               if throwOnError p
               then Throw (ErrorObject (download_failed_message code d))
               else Ok {| json := HelperTransfer.download_failure_record
                                    (download_failed_message code d) code d;
                          pairedItem := i |})
            else forward
        | None => forward
        end
    end.
Proof.
  unfold run, HelperTransfer.transfer.
  erewrite bind_ok by reflexivity.
  destruct (HelperTransfer.helpers_request host d fdh) as [resp|e] eqn:Hreq.
  2:{ by erewrite bind_throw by reflexivity. }
  erewrite bind_ok by reflexivity.
  assert (HelperTransfer.forward host p i d u prepared resp [Download d fdh] =
    match HelperTransfer.obtain_stream d (HelperTransfer.body resp) with
    | Throw e => ([Download d fdh], Throw e)
    | Ok _ =>
        let h := add_detected_length (contentLength p)
                   (default ∅ (HelperTransfer.headers resp)
                      !! "content-length") prepared in
        ([Download d fdh; Upload (method p) u h],
         match HelperTransfer.helpers_httpRequest host (method p) u h with
         | Throw e => Throw e
         | Ok uploadResponse =>
             let status := HelperTransfer.statusCode_of uploadResponse in
             if HelperTransfer.defined status && HelperTransfer.failed_value status
             then
               let message :=
                 HelperTransfer.upload_failed_text (ToString status) u (method p) in
               if throwOnError p
               then Throw (ErrorObject message)
               else Ok {| json := HelperTransfer.upload_refused_record message
                                    status (HelperTransfer.statusCode resp) u d;
                          pairedItem := i |}
             else
               Ok {| json := HelperTransfer.success_record
                               (HelperTransfer.statusCode resp) status uploadResponse;
                     pairedItem := i |}
         end)
    end) as Hfw.
  { unfold HelperTransfer.forward. cbv zeta.
    destruct (HelperTransfer.obtain_stream d (HelperTransfer.body resp))
      as [[]|e] eqn:Hs.
    2:{ by erewrite bind_throw by reflexivity. }
    erewrite bind_ok by reflexivity.
    erewrite bind_ok by reflexivity.
    destruct (HelperTransfer.helpers_httpRequest _ _ _ _) as [v|e] eqn:Hu.
    - erewrite bind_ok by reflexivity.
      by destruct (_ && _), (throwOnError p).
    - by erewrite bind_throw by reflexivity. }
  cbv zeta in Hfw |- *. rewrite <- Hfw.
  destruct (HelperTransfer.statusCode resp) as [code|]; [|done].
  destruct (failed_status code); [|done]. by destruct (throwOnError p).
Qed.

(** An invocation either stops at the validation or enters the [try]
    block. *)
Lemma native_execute_shape (host : TransferFile.Host) p i :
  (∃ message,
     (blank (downloadUrl p) = true ∨ blank (uploadUrl p) = true) ∧
     run (TransferFile.execute host p i) = ([], Throw (ErrorObject message))) ∨
  (∃ d u dh uh,
     downloadUrl p = Some d ∧ uploadUrl p = Some u ∧
     ¬ absent_or_blank (Some d) ∧ ¬ absent_or_blank (Some u) ∧
     parseHeaders (downloadHeadersParam p) = Ok dh ∧
     parseHeaders (uploadHeadersParam p) = Ok uh ∧
     run (TransferFile.execute host p i) =
       try_catch_M
         (TransferFile.transfer host p i d u (finalDownloadHeaders dh)
            (preparedUploadHeaders u uh (contentLength p)))
         (on_error (throwOnError p) i d u) []).
Proof.
  destruct (blank (downloadUrl p)) eqn:Hbd.
  { left. eexists. split; [by left | by apply native_blank_download]. }
  destruct (blank (uploadUrl p)) eqn:Hbu.
  { left. eexists. split; [by right | by apply native_blank_upload]. }
  destruct (downloadUrl p) as [d|] eqn:Hd; [|done].
  destruct (uploadUrl p) as [u|] eqn:Hu; [|done].
  destruct (parseHeaders_returns (downloadHeadersParam p)) as [dh Hdh].
  destruct (parseHeaders_returns (uploadHeadersParam p)) as [uh Huh].
  right. exists d, u, dh, uh.
  assert (¬ absent_or_blank (Some d)) as Had.
  { intros Ha%blank_spec. congruence. }
  assert (¬ absent_or_blank (Some u)) as Hau.
  { intros Ha%blank_spec. congruence. }
  repeat (split; [done|]).
  by apply native_execute_valid.
Qed.

Lemma helper_execute_shape (host : HelperTransfer.Host) p i :
  (∃ message,
     (blank (downloadUrl p) = true ∨ blank (uploadUrl p) = true) ∧
     run (HelperTransfer.execute host p i) = ([], Throw (ErrorObject message))) ∨
  (∃ d u dh uh,
     downloadUrl p = Some d ∧ uploadUrl p = Some u ∧
     ¬ absent_or_blank (Some d) ∧ ¬ absent_or_blank (Some u) ∧
     parseHeaders (downloadHeadersParam p) = Ok dh ∧
     parseHeaders (uploadHeadersParam p) = Ok uh ∧
     run (HelperTransfer.execute host p i) =
       try_catch_M
         (HelperTransfer.transfer host p i d u (finalDownloadHeaders dh)
            (preparedUploadHeaders u uh (contentLength p)))
         (on_error (throwOnError p) i d u) []).
Proof.
  destruct (blank (downloadUrl p)) eqn:Hbd.
  { left. eexists. split; [by left | by apply helper_blank_download]. }
  destruct (blank (uploadUrl p)) eqn:Hbu.
  { left. eexists. split; [by right | by apply helper_blank_upload]. }
  destruct (downloadUrl p) as [d|] eqn:Hd; [|done].
  destruct (uploadUrl p) as [u|] eqn:Hu; [|done].
  destruct (parseHeaders_returns (downloadHeadersParam p)) as [dh Hdh].
  destruct (parseHeaders_returns (uploadHeadersParam p)) as [uh Huh].
  right. exists d, u, dh, uh.
  assert (¬ absent_or_blank (Some d)) as Had.
  { intros Ha%blank_spec. congruence. }
  assert (¬ absent_or_blank (Some u)) as Hau.
  { intros Ha%blank_spec. congruence. }
  repeat (split; [done|]).
  by apply helper_execute_valid.
Qed.

(** *** What an invocation can return *)

Lemma try_catch_log (b : bool) (i : nat) (d u : string)
    (k : M INodeExecutionData) :
  (try_catch_M k (on_error b i d u) []).1 = (run k).1.
Proof.
  unfold try_catch_M, run.
  destruct (k []) as [log [r|e]]; [done|]. apply on_error_log.
Qed.

Lemma accepted_iff (code : Z) : failed_status code = false ↔ accepted code.
Proof.
  unfold failed_status, accepted. rewrite orb_false_iff.
  rewrite Z.ltb_ge, Z.leb_gt. lia.
Qed.

Lemma status_or_200_accepted (code : option Z) :
  (∀ c, code = Some c → accepted c) →
  status_or_200 code = default 200 code ∧ accepted (status_or_200 code).
Proof.
  intros Hc. destruct code as [c|]; simpl; [|unfold accepted; lia].
  specialize (Hc c eq_refl). destruct (Z.eqb_spec c 0); [|done].
  unfold accepted in Hc. lia.
Qed.

Lemma native_success_record_success (dcode : Z) (ucode : option Z) (body : JsValue) :
  let record := TransferFile.success_record dcode ucode body in
  record !! "success" = Some (JBool true) ∧
  record !! "downloadStatus" = Some (JNum (status_or_200 (Some dcode))) ∧
  record !! "uploadStatus" = Some (JNum (status_or_200 ucode)) ∧
  record !! "uploadResponse" = TransferFile.uploadResponse_field body.
Proof.
  cbv zeta. unfold TransferFile.success_record.
  destruct (TransferFile.uploadResponse_field body) as [v|].
  - rewrite !lookup_insert_ne by done. rewrite lookup_insert_eq.
    repeat split; by vm_compute.
  - repeat split; by vm_compute.
Qed.

Lemma helper_success_record_success (dcode : option Z) (status v : JsValue) :
  let record := HelperTransfer.success_record dcode status v in
  record !! "success" = Some (JBool true) ∧
  record !! "downloadStatus" = Some (JNum (status_or_200 dcode)) ∧
  record !! "uploadStatus" = Some (HelperTransfer.value_or_200 status) ∧
  record !! "uploadResponse" = Some v.
Proof.
  cbv zeta. unfold HelperTransfer.success_record. repeat split; by vm_compute.
Qed.

Lemma upload_refused_record_fields (message : string) (status : JsValue)
    (downloadStatusCode : option Z) (u d : string) :
  let record :=
    HelperTransfer.upload_refused_record message status downloadStatusCode u d in
  record !! "success" = None ∧
  record !! "error" = Some (JStr message) ∧
  record !! "uploadStatus" = Some status ∧
  record !! "downloadStatus" = Some (js_status downloadStatusCode) ∧
  record !! "uploadUrl" = Some (JStr u) ∧
  record !! "downloadUrl" = Some (JStr d).
Proof.
  cbv zeta. unfold HelperTransfer.upload_refused_record.
  repeat split; by vm_compute.
Qed.

(** On a number the range test of the older operation is the one of
    transferFile.operation.ts, and the message is the same text. *)
Lemma failed_value_number (c : Z) :
  HelperTransfer.failed_value (JNum c) = failed_status c.
Proof.
  unfold HelperTransfer.failed_value, less_than, at_least, compare_number,
    failed_status.
  destruct (Z.compare_spec c 200), (Z.compare_spec c 300),
    (Z.ltb_spec c 200), (Z.leb_spec 300 c); try lia; reflexivity.
Qed.

Lemma upload_failed_text_number (c : Z) (u : string) (m : Method) :
  HelperTransfer.upload_failed_text (ToString (JNum c)) u m =
    upload_failed_message c u m.
Proof. reflexivity. Qed.

Lemma download_failure_record_fields (message : string) (code : Z) (d : string) :
  let record := HelperTransfer.download_failure_record message code d in
  record !! "success" = None ∧
  record !! "error" = Some (JStr message) ∧
  record !! "downloadStatus" = Some (JNum code) ∧
  record !! "downloadUrl" = Some (JStr d).
Proof.
  cbv zeta. unfold HelperTransfer.download_failure_record.
  repeat split; by vm_compute.
Qed.

(** The records transferFile.operation.ts can return. *)
Lemma native_returned (host : TransferFile.Host) p i r :
  (run (TransferFile.execute host p i)).2 = Ok r →
  pairedItem r = i ∧
  ((∃ dcode ucode body,
      failed_status dcode = false ∧
      (∀ c, ucode = Some c → failed_status c = false) ∧
      json r = TransferFile.success_record dcode ucode body) ∨
   (throwOnError p = false ∧
    ∃ m c dcode u d, json r = upload_failure_record m c dcode u d) ∨
   (throwOnError p = false ∧ ∃ m d u, json r = caught_record m d u)).
Proof.
  destruct (native_execute_shape host p i)
    as [(message & _ & ->)|(d & u & dh & uh & _ & _ & _ & _ & _ & _ & ->)];
    [done|].
  unfold try_catch_M.
  change (TransferFile.transfer host p i d u (finalDownloadHeaders dh)
            (preparedUploadHeaders u uh (contentLength p)) [])
    with (run (TransferFile.transfer host p i d u (finalDownloadHeaders dh)
                 (preparedUploadHeaders u uh (contentLength p)))).
  rewrite native_transfer_run.
  assert (∀ e log,
    (on_error (throwOnError p) i d u e log).2 = Ok r →
    pairedItem r = i ∧
    throwOnError p = false ∧ ∃ m d u, json r = caught_record m d u) as Hcatch.
  { intros e log. destruct (throwOnError p); [done|].
    rewrite on_error_return. intros [= <-]. eauto 6. }
  destruct (URL_new d) as [o|e].
  2:{ intros Hr. destruct (Hcatch _ _ Hr) as (? & ? & ?). auto. }
  destruct (TransferFile.client_request _ _ _) as [code hdrs|message].
  2:{ intros Hr. destruct (Hcatch _ _ Hr) as (? & ? & ?). auto. }
  destruct (failed_status (default 0 code)) eqn:Hf.
  { intros Hr. destruct (Hcatch _ _ Hr) as (? & ? & ?). auto. }
  cbv zeta.
  destruct (TransferFile.helpers_request _ _ _ _) as [resp|e].
  2:{ intros Hr. destruct (Hcatch _ _ Hr) as (? & ? & ?). auto. }
  destruct (TransferFile.statusCode resp) as [c|] eqn:Hc.
  - destruct (failed_status c) eqn:Hfc.
    + destruct (throwOnError p) eqn:Ht.
      * intros Hr. by rewrite on_error_throw in Hr.
      * intros [= <-]. split; [done|]. right. left. split; [done|]. eauto 8.
    + intros [= <-]. split; [done|]. left.
      exists (default 0 code), (Some c), (TransferFile.body resp).
      split; [done|]. split; [|done]. by intros ? [= <-].
  - intros [= <-]. split; [done|]. left.
    exists (default 0 code), None, (TransferFile.body resp).
    split; [done|]. split; done.
Qed.

(** The records the older operation can return. *)
Lemma helper_returned (host : HelperTransfer.Host) p i r :
  (run (HelperTransfer.execute host p i)).2 = Ok r →
  pairedItem r = i ∧
  ((∃ dcode status v,
      (∀ c, dcode = Some c → failed_status c = false) ∧
      HelperTransfer.defined status && HelperTransfer.failed_value status =
        false ∧
      json r = HelperTransfer.success_record dcode status v) ∨
   (throwOnError p = false ∧
    ∃ m status dcode u d,
      json r = HelperTransfer.upload_refused_record m status dcode u d) ∨
   (throwOnError p = false ∧
    ∃ m c d, json r = HelperTransfer.download_failure_record m c d) ∨
   (throwOnError p = false ∧ ∃ m d u, json r = caught_record m d u)).
Proof.
  destruct (helper_execute_shape host p i)
    as [(message & _ & ->)|(d & u & dh & uh & _ & _ & _ & _ & _ & _ & ->)];
    [done|].
  unfold try_catch_M.
  change (HelperTransfer.transfer host p i d u (finalDownloadHeaders dh)
            (preparedUploadHeaders u uh (contentLength p)) [])
    with (run (HelperTransfer.transfer host p i d u (finalDownloadHeaders dh)
                 (preparedUploadHeaders u uh (contentLength p)))).
  rewrite helper_transfer_run. cbv zeta.
  destruct (throwOnError p) eqn:Ht;
    repeat case_match; rewrite ?on_error_throw, ?on_error_return in *;
    cbn [snd]; intros Hr; simplify_eq; (split; [reflexivity|]);
    lazymatch goal with
    | |- context [json {| json := caught_record _ _ _; pairedItem := _ |}] =>
        right; right; right; split; [reflexivity|];
        eexists _, _, _; reflexivity
    | |- context [json {| json := HelperTransfer.download_failure_record _ _ _;
                          pairedItem := _ |}] =>
        right; right; left; split; [reflexivity|];
        eexists _, _, _; reflexivity
    | |- context [json {| json := HelperTransfer.upload_refused_record
                                    _ _ _ _ _;
                          pairedItem := _ |}] =>
        right; left; split; [reflexivity|];
        eexists _, _, _, _, _; reflexivity
    | |- context [json {| json := HelperTransfer.success_record _ _ _;
                          pairedItem := _ |}] =>
        left; eexists _, _, _;
        split; [|split; [|reflexivity]];
        first [ assumption | intros ? ?; by simplify_eq ]
    end.
Qed.

(** *** Requests *)

Lemma native_log_cases (host : TransferFile.Host) p i d u dh uh :
  downloadUrl p = Some d → uploadUrl p = Some u →
  ¬ absent_or_blank (Some d) → ¬ absent_or_blank (Some u) →
  parseHeaders (downloadHeadersParam p) = Ok dh →
  parseHeaders (uploadHeadersParam p) = Ok uh →
  let log := (run (TransferFile.execute host p i)).1 in
  log = [] ∨ log = [Download d (finalDownloadHeaders dh)] ∨
  ∃ rl, log = [Download d (finalDownloadHeaders dh);
               Upload (method p) u
                 (add_detected_length (contentLength p) rl
                    (preparedUploadHeaders u uh (contentLength p)))].
Proof.
  intros Hd Hu Hbd%not_blank Hbu%not_blank Hdh Huh. cbv zeta.
  rewrite (native_execute_valid host p i d u dh uh) by done.
  rewrite try_catch_log, native_transfer_run.
  repeat case_match; cbn [fst]; eauto.
Qed.

Lemma helper_log_cases (host : HelperTransfer.Host) p i d u dh uh :
  downloadUrl p = Some d → uploadUrl p = Some u →
  ¬ absent_or_blank (Some d) → ¬ absent_or_blank (Some u) →
  parseHeaders (downloadHeadersParam p) = Ok dh →
  parseHeaders (uploadHeadersParam p) = Ok uh →
  let log := (run (HelperTransfer.execute host p i)).1 in
  log = [Download d (finalDownloadHeaders dh)] ∨
  ∃ rl, log = [Download d (finalDownloadHeaders dh);
               Upload (method p) u
                 (add_detected_length (contentLength p) rl
                    (preparedUploadHeaders u uh (contentLength p)))].
Proof.
  intros Hd Hu Hbd%not_blank Hbu%not_blank Hdh Huh. cbv zeta.
  rewrite (helper_execute_valid host p i d u dh uh) by done.
  rewrite try_catch_log, helper_transfer_run. cbv zeta.
  repeat case_match; cbn [fst]; eauto.
Qed.

(** X4.  One invocation of either operation sends at most one download
    request and at most one upload request, and an upload only after the
    download: its log is empty, the download alone, or the download followed
    by one upload.  The download goes to the [downloadUrl] parameter, the
    upload to the [uploadUrl] parameter as given, with the [method]
    parameter. *)
Theorem one_transfer_per_invocation (native : TransferFile.Host)
    (helper : HelperTransfer.Host) (p : Params) (i : nat) :
  one_transfer p (run (TransferFile.execute native p i)).1 ∧
  one_transfer p (run (HelperTransfer.execute helper p i)).1.
Proof.
  split.
  - destruct (native_execute_shape native p i)
      as [(message & _ & ->)
         |(d & u & dh & uh & Hd & Hu & Hbd & Hbu & Hdh & Huh & _)];
      [by left|].
    destruct (native_log_cases native p i d u dh uh Hd Hu Hbd Hbu Hdh Huh)
      as [->|[->|[rl ->]]]; [by left|..]; right; eexists d, _; eauto 6.
  - destruct (helper_execute_shape helper p i)
      as [(message & _ & ->)
         |(d & u & dh & uh & Hd & Hu & Hbd & Hbu & Hdh & Huh & _)];
      [by left|].
    destruct (helper_log_cases helper p i d u dh uh Hd Hu Hbd Hbu Hdh Huh)
      as [->|[rl ->]]; right; eexists d, _; eauto 6.
Qed.

(** *** Raising and returning *)

(** X5.  With [throwOnError] off and both URLs given, neither operation
    ever raises: whatever the transport and the runtime do, the invocation
    returns a record. *)
Theorem soft_mode_never_raises (native : TransferFile.Host)
    (helper : HelperTransfer.Host) (p : Params) (i : nat) :
  throwOnError p = false →
  ¬ absent_or_blank (downloadUrl p) → ¬ absent_or_blank (uploadUrl p) →
  (∃ r, (run (TransferFile.execute native p i)).2 = Ok r) ∧
  (∃ r, (run (HelperTransfer.execute helper p i)).2 = Ok r).
Proof.
  intros Ht Hnd Hnu.
  assert (∀ k : M INodeExecutionData, ∀ d u,
    ∃ r, (try_catch_M k (on_error (throwOnError p) i d u) []).2 = Ok r)
    as Hcaught.
  { intros k d u. unfold try_catch_M. rewrite Ht.
    destruct (k []) as [log [r|e]]; [by exists r|].
    rewrite on_error_return. by eexists. }
  split.
  - destruct (native_execute_shape native p i)
      as [(message & [Hb|Hb] & _)|(d & u & dh & uh & _ & _ & _ & _ & _ & _ & ->)].
    + by apply blank_spec in Hb.
    + by apply blank_spec in Hb.
    + apply Hcaught.
  - destruct (helper_execute_shape helper p i)
      as [(message & [Hb|Hb] & _)|(d & u & dh & uh & _ & _ & _ & _ & _ & _ & ->)].
    + by apply blank_spec in Hb.
    + by apply blank_spec in Hb.
    + apply Hcaught.
Qed.

(** X6.  With [throwOnError] on, a record is returned only for a completed
    transfer: every record either operation returns has [success: true]. *)
Theorem hard_mode_returns_only_success (native : TransferFile.Host)
    (helper : HelperTransfer.Host) (p : Params) (i : nat) :
  throwOnError p = true →
  (∀ r, (run (TransferFile.execute native p i)).2 = Ok r →
        json r !! "success" = Some (JBool true)) ∧
  (∀ r, (run (HelperTransfer.execute helper p i)).2 = Ok r →
        json r !! "success" = Some (JBool true)).
Proof.
  intros Ht. split; intros r Hr.
  - destruct (native_returned native p i r Hr)
      as [_ [(dc & uc & b & _ & _ & ->)|[[? _]|[? _]]]]; [|congruence..].
    apply native_success_record_success.
  - destruct (helper_returned helper p i r Hr)
      as [_ [(dc & uc & v & _ & _ & ->)|[[? _]|[[? _]|[? _]]]]];
      [|congruence..].
    apply helper_success_record_success.
Qed.

(** What the older operation reports as [uploadStatus] in a success
    record. *)
Lemma value_or_200_accepted (status : JsValue) :
  HelperTransfer.defined status && HelperTransfer.failed_value status = false →
  (∃ b, HelperTransfer.value_or_200 status = JNum b ∧ accepted b) ∨
  (HelperTransfer.value_or_200 status = status ∧
   typeof status ≠ TNumber ∧ truthy status = true ∧
   HelperTransfer.failed_value status = false).
Proof.
  intros Hs. unfold HelperTransfer.value_or_200.
  destruct (truthy status) eqn:Ht.
  - destruct status as [| |b|c|t|xs|fields]; try done.
    + right. by destruct b.
    + left. exists c. split; [done|].
      cbn [HelperTransfer.defined andb] in Hs.
      rewrite failed_value_number in Hs. by apply accepted_iff.
    + right. done.
    + right. done.
    + right. done.
  - left. exists 200. split; [done|]. unfold accepted. lia.
Qed.

(** X7.  A record with [success: true] never reports a status that failed
    the range test.  In transferFile.operation.ts both statuses are numbers
    in [200, 300), a missing status being reported as 200.  In the older
    operation the download status is such a number, and the upload status
    is such a number or, when the response of the upload helper carries a
    [statusCode] that is not a number, that value itself: it is truthy and
    neither below 200 nor at least 300 after conversion. *)
Theorem success_reports_accepted_statuses (native : TransferFile.Host)
    (helper : HelperTransfer.Host) (p : Params) (i : nat)
    (r : INodeExecutionData) :
  json r !! "success" = Some (JBool true) →
  ((run (TransferFile.execute native p i)).2 = Ok r →
   ∃ a b, json r !! "downloadStatus" = Some (JNum a) ∧
          json r !! "uploadStatus" = Some (JNum b) ∧
          accepted a ∧ accepted b) ∧
  ((run (HelperTransfer.execute helper p i)).2 = Ok r →
   ∃ a v, json r !! "downloadStatus" = Some (JNum a) ∧ accepted a ∧
          json r !! "uploadStatus" = Some v ∧
          ((∃ b, v = JNum b ∧ accepted b) ∨
           (typeof v ≠ TNumber ∧ truthy v = true ∧
            HelperTransfer.failed_value v = false))).
Proof.
  intros Hs. split; intros Hr.
  - destruct (native_returned native p i r Hr)
      as [_ [(dc & uc & b & Hdc & Huc & Hj)
            |[(_ & m & c & dc & u & d & Hj)|(_ & m & d & u & Hj)]]];
      rewrite Hj in Hs |- *.
    + destruct (native_success_record_success dc uc b) as (_ & -> & -> & _).
      eexists _, _. split; [done|]. split; [done|].
      split; apply status_or_200_accepted.
      * intros c [= <-]. by apply accepted_iff.
      * intros c Hc. by apply accepted_iff, Huc.
    + destruct (upload_failure_record_fields m c dc u d) as (Hno & _).
      cbv zeta in Hno. congruence.
    + destruct (caught_record_fields m d u) as (Hno & _). congruence.
  - destruct (helper_returned helper p i r Hr)
      as [_ [(dc & st & v & Hdc & Hst & Hj)
            |[(_ & m & st & dc & u & d & Hj)
             |[(_ & m & c & d & Hj)|(_ & m & d & u & Hj)]]]];
      rewrite Hj in Hs |- *.
    + destruct (helper_success_record_success dc st v) as (_ & -> & -> & _).
      eexists _, _. split; [done|]. split.
      { apply status_or_200_accepted. intros c Hc. by apply accepted_iff, Hdc. }
      split; [done|].
      destruct (value_or_200_accepted st Hst) as [?|(-> & ? & ? & ?)]; auto.
    + destruct (upload_refused_record_fields m st dc u d) as (Hno & _).
      cbv zeta in Hno. congruence.
    + destruct (download_failure_record_fields m c d) as (Hno & _).
      cbv zeta in Hno. congruence.
    + destruct (caught_record_fields m d u) as (Hno & _). congruence.
Qed.

Lemma caught_raises_error_object (b : bool) (i : nat) (d u : string)
    (k : M INodeExecutionData) (e : Thrown) :
  (try_catch_M k (on_error b i d u) []).2 = Throw e →
  ∃ message, e = ErrorObject message.
Proof.
  unfold try_catch_M. destruct (k []) as [log [r|e']]; [done|].
  destruct b.
  - rewrite on_error_throw. intros [= <-]. by eexists.
  - by rewrite on_error_return.
Qed.

Lemma native_raises_error_object (host : TransferFile.Host) p i e :
  (run (TransferFile.execute host p i)).2 = Throw e →
  ∃ message, e = ErrorObject message.
Proof.
  destruct (native_execute_shape host p i)
    as [(message & _ & ->)|(d & u & dh & uh & _ & _ & _ & _ & _ & _ & ->)].
  - intros [= <-]. by eexists.
  - apply caught_raises_error_object.
Qed.

Lemma helper_raises_error_object (host : HelperTransfer.Host) p i e :
  (run (HelperTransfer.execute host p i)).2 = Throw e →
  ∃ message, e = ErrorObject message.
Proof.
  destruct (helper_execute_shape host p i)
    as [(message & _ & ->)|(d & u & dh & uh & _ & _ & _ & _ & _ & _ & ->)].
  - intros [= <-]. by eexists.
  - apply caught_raises_error_object.
Qed.

(** X8.  Whatever is thrown inside an invocation, what the invocation
    raises is an [Error] object, and every record it returns is paired with
    the item it was called for. *)
Theorem raises_errors_and_pairs_items (native : TransferFile.Host)
    (helper : HelperTransfer.Host) (p : Params) (i : nat) :
  (∀ e, (run (TransferFile.execute native p i)).2 = Throw e →
        ∃ message, e = ErrorObject message) ∧
  (∀ e, (run (HelperTransfer.execute helper p i)).2 = Throw e →
        ∃ message, e = ErrorObject message) ∧
  (∀ r, (run (TransferFile.execute native p i)).2 = Ok r → pairedItem r = i) ∧
  (∀ r, (run (HelperTransfer.execute helper p i)).2 = Ok r → pairedItem r = i).
Proof.
  split; [|split; [|split]].
  - apply native_raises_error_object.
  - apply helper_raises_error_object.
  - intros r Hr. by destruct (native_returned native p i r Hr).
  - intros r Hr. by destruct (helper_returned helper p i r Hr).
Qed.

(** *** A completed transfer *)

Lemma native_completed_run (host : TransferFile.Host)
    (p : Params) (i : nat) (d u : string) (dh uh : gmap string string)
    (o : URL) (code : Z) (hdrs : gmap string string)
    (resp : TransferFile.FullResponse) :
  downloadUrl p = Some d → uploadUrl p = Some u →
  ¬ absent_or_blank (Some d) → ¬ absent_or_blank (Some u) →
  parseHeaders (downloadHeadersParam p) = Ok dh →
  parseHeaders (uploadHeadersParam p) = Ok uh →
  URL_new d = Ok o →
  TransferFile.client_request host (TransferFile.client_of o)
    (TransferFile.downloadOptions o (finalDownloadHeaders dh)) =
    TransferFile.Responded (Some code) hdrs →
  accepted code →
  let h := add_detected_length (contentLength p) (hdrs !! "content-length")
             (preparedUploadHeaders u uh (contentLength p)) in
  TransferFile.helpers_request host (method p) u h = Ok resp →
  (∀ c, TransferFile.statusCode resp = Some c → accepted c) →
  run (TransferFile.execute host p i) =
    ([Download d (finalDownloadHeaders dh); Upload (method p) u h],
     Ok {| json := TransferFile.success_record code
                     (TransferFile.statusCode resp) (TransferFile.body resp);
           pairedItem := i |}).
Proof.
  intros Hd Hu Hbd%not_blank Hbu%not_blank Hdh Huh Ho Hc Hcode h Hreq Hup.
  rewrite (native_execute_valid host p i d u dh uh) by done.
  apply try_ok.
  change (run (TransferFile.transfer host p i d u (finalDownloadHeaders dh)
                 (preparedUploadHeaders u uh (contentLength p))) =
          ([Download d (finalDownloadHeaders dh); Upload (method p) u h],
           Ok {| json := TransferFile.success_record code
                           (TransferFile.statusCode resp)
                           (TransferFile.body resp);
                 pairedItem := i |})).
  rewrite native_transfer_run, Ho, Hc.
  change (default 0 (Some code)) with code.
  apply accepted_iff in Hcode as ->. cbv zeta. fold h. rewrite Hreq.
  destruct (TransferFile.statusCode resp) as [c|]; [|done].
  specialize (Hup c eq_refl). by apply accepted_iff in Hup as ->.
Qed.

(** X9.  When the source answers with a status in [200, 300) and the
    destination answers with such a status or with none, transferFile
    returns, whatever [throwOnError] is, a record with [success: true], the
    download status, the upload status (200 when the response has none) and
    no [error]; the download and the upload are the two requests sent. *)
Theorem native_completed_transfer (host : TransferFile.Host)
    (p : Params) (i : nat) (d u : string) (dh uh : gmap string string)
    (o : URL) (code : Z) (hdrs : gmap string string)
    (resp : TransferFile.FullResponse) :
  downloadUrl p = Some d → uploadUrl p = Some u →
  ¬ absent_or_blank (Some d) → ¬ absent_or_blank (Some u) →
  parseHeaders (downloadHeadersParam p) = Ok dh →
  parseHeaders (uploadHeadersParam p) = Ok uh →
  URL_new d = Ok o →
  TransferFile.client_request host (TransferFile.client_of o)
    (TransferFile.downloadOptions o (finalDownloadHeaders dh)) =
    TransferFile.Responded (Some code) hdrs →
  accepted code →
  let h := add_detected_length (contentLength p) (hdrs !! "content-length")
             (preparedUploadHeaders u uh (contentLength p)) in
  TransferFile.helpers_request host (method p) u h = Ok resp →
  (∀ c, TransferFile.statusCode resp = Some c → accepted c) →
  ∃ r, run (TransferFile.execute host p i) =
         ([Download d (finalDownloadHeaders dh); Upload (method p) u h], Ok r) ∧
       json r !! "success" = Some (JBool true) ∧
       json r !! "downloadStatus" = Some (JNum code) ∧
       json r !! "uploadStatus" =
         Some (JNum (default 200 (TransferFile.statusCode resp))) ∧
       json r !! "error" = None.
Proof.
  intros Hd Hu Hbd Hbu Hdh Huh Ho Hc Hcode h Hreq Hup.
  eexists. split.
  { by apply (native_completed_run host p i d u dh uh o code hdrs resp). }
  cbn [json].
  destruct (native_success_record_success code (TransferFile.statusCode resp)
              (TransferFile.body resp)) as (Hs & Hds & Hus & _).
  cbv zeta in Hs, Hds, Hus. rewrite Hs, Hds, Hus.
  destruct (status_or_200_accepted (Some code)) as [-> _];
    [by intros ? [= <-]|].
  destruct (status_or_200_accepted (TransferFile.statusCode resp) Hup) as [-> _].
  repeat split.
  unfold TransferFile.success_record.
  destruct (TransferFile.uploadResponse_field _);
    rewrite ?lookup_insert_ne by done; by vm_compute.
Qed.

(** X10.  The [uploadResponse] field after a completed transfer: a response
    without body leaves the field out; a body that is a string is replaced
    by the value it parses to as JSON, and kept as it is when it does not
    parse; any other body is passed through. *)
Theorem native_upload_response_field (host : TransferFile.Host)
    (p : Params) (i : nat) (d u : string) (dh uh : gmap string string)
    (o : URL) (code : Z) (hdrs : gmap string string)
    (resp : TransferFile.FullResponse) :
  downloadUrl p = Some d → uploadUrl p = Some u →
  ¬ absent_or_blank (Some d) → ¬ absent_or_blank (Some u) →
  parseHeaders (downloadHeadersParam p) = Ok dh →
  parseHeaders (uploadHeadersParam p) = Ok uh →
  URL_new d = Ok o →
  TransferFile.client_request host (TransferFile.client_of o)
    (TransferFile.downloadOptions o (finalDownloadHeaders dh)) =
    TransferFile.Responded (Some code) hdrs →
  accepted code →
  TransferFile.helpers_request host (method p) u
    (add_detected_length (contentLength p) (hdrs !! "content-length")
       (preparedUploadHeaders u uh (contentLength p))) = Ok resp →
  (∀ c, TransferFile.statusCode resp = Some c → accepted c) →
  ∃ r, (run (TransferFile.execute host p i)).2 = Ok r ∧
    let body := TransferFile.body resp in
    (body = JUndefined → json r !! "uploadResponse" = None) ∧
    (∀ s v, body = JStr s → JSON_parse s = Ok v →
            json r !! "uploadResponse" = Some v) ∧
    (∀ s e, body = JStr s → JSON_parse s = Throw e →
            json r !! "uploadResponse" = Some (JStr s)) ∧
    ((∀ s, body ≠ JStr s) → body ≠ JUndefined →
     json r !! "uploadResponse" = Some body).
Proof.
  intros Hd Hu Hbd Hbu Hdh Huh Ho Hc Hcode Hreq Hup.
  eexists. split.
  { by rewrite (native_completed_run host p i d u dh uh o code hdrs resp). }
  cbn [json]. cbv zeta.
  destruct (native_success_record_success code (TransferFile.statusCode resp)
              (TransferFile.body resp)) as (_ & _ & _ & ->).
  repeat split.
  - by intros ->.
  - intros s v -> Hv. simpl. by rewrite Hv.
  - intros s e -> He. simpl. by rewrite He.
  - intros Hs Hne. destruct (TransferFile.body resp) as [| | | |s| |]; try done.
    by destruct (Hs s).
Qed.

Lemma download_failed_message_start (code : Z) (d : string) :
  includes ("Download failed with HTTP " ++ String_of_number code ++ " from " ++ d)
    (download_failed_message code d) = true.
Proof.
  unfold download_failed_message. apply includes_here.
  replace ("Download failed with HTTP " ++ String_of_number code ++ " from " ++
           d ++
           ". Please verify the download URL is accessible and returns a successful response.")
    with (("Download failed with HTTP " ++ String_of_number code ++ " from " ++ d) ++
          ". Please verify the download URL is accessible and returns a successful response.")
    by (by rewrite !append_assoc).
  apply prefix_app.
Qed.

(** X11.  A native response without status code counts as status 0: the
    download is reported as failed with HTTP 0 and the upload is not
    attempted. *)
Theorem native_missing_status_is_failure (host : TransferFile.Host)
    (p : Params) (i : nat) (d u : string) (dh uh : gmap string string)
    (o : URL) (hdrs : gmap string string) :
  downloadUrl p = Some d → uploadUrl p = Some u →
  ¬ absent_or_blank (Some d) → ¬ absent_or_blank (Some u) →
  parseHeaders (downloadHeadersParam p) = Ok dh →
  parseHeaders (uploadHeadersParam p) = Ok uh →
  URL_new d = Ok o →
  TransferFile.client_request host (TransferFile.client_of o)
    (TransferFile.downloadOptions o (finalDownloadHeaders dh)) =
    TransferFile.Responded None hdrs →
  ∃ m : string,
    includes ("Download failed with HTTP 0 from " ++ d) m = true ∧
    (run (TransferFile.execute host p i)).1 =
      [Download d (finalDownloadHeaders dh)] ∧
    (run (TransferFile.execute host p i)).2 =
      if throwOnError p
      then Throw (ErrorObject m)
      else Ok {| json := caught_record m d u; pairedItem := i |}.
Proof.
  intros Hd Hu Hbd%not_blank Hbu%not_blank Hdh Huh Ho Hc.
  rewrite (native_execute_valid host p i d u dh uh) by done.
  erewrite try_throw
    by (by eapply (native_transfer_download_failed host p i d u _ _ o None hdrs)).
  exists (enhance (download_failed_message 0 d) d u). split.
  - eapply includes_trans; [|apply enhance_includes].
    apply (download_failed_message_start 0 d).
  - by destruct (throwOnError p).
Qed.

(** *** The older operation *)


Lemma value_not_streamable_text (d : string) (v : JsValue) :
  let m := HelperTransfer.value_not_streamable d v in
  includes "is not a streamable format" m = true ∧
  includes (typeof_name (typeof v)) m = true ∧
  includes (HelperTransfer.constructor_name v) m = true.
Proof.
  cbv zeta. unfold HelperTransfer.value_not_streamable.
  repeat split; find_segment.
Qed.

(** X13.  In the older operation a download body that was parsed to
    something other than an object (a string, a number, a boolean, [null]
    or nothing) is refused as well: the message says the response is not a
    streamable format and names the type and the constructor of the body, no
    upload request is sent, and the message is raised or returned according
    to [throwOnError]. *)
Theorem helper_plain_value_is_refused (host : HelperTransfer.Host)
    (p : Params) (i : nat) (d u : string) (dh uh : gmap string string)
    (resp : HelperTransfer.DownloadResponse) (v : JsValue) :
  downloadUrl p = Some d → uploadUrl p = Some u →
  ¬ absent_or_blank (Some d) → ¬ absent_or_blank (Some u) →
  parseHeaders (downloadHeadersParam p) = Ok dh →
  parseHeaders (uploadHeadersParam p) = Ok uh →
  HelperTransfer.helpers_request host d (finalDownloadHeaders dh) = Ok resp →
  (∀ c, HelperTransfer.statusCode resp = Some c → accepted c) →
  HelperTransfer.body resp = HelperTransfer.ParsedBody v →
  is_object v = false →
  ∃ m : string,
    includes "is not a streamable format" m = true ∧
    includes (typeof_name (typeof v)) m = true ∧
    includes (HelperTransfer.constructor_name v) m = true ∧
    run (HelperTransfer.execute host p i) =
      ([Download d (finalDownloadHeaders dh)],
       if throwOnError p
       then Throw (ErrorObject m)
       else Ok {| json := caught_record m d u; pairedItem := i |}).
Proof.
  intros Hd Hu Hbd%not_blank Hbu%not_blank Hdh Huh Hreq Hdown Hbody Hobj.
  rewrite (helper_execute_valid host p i d u dh uh) by done.
  assert (run (HelperTransfer.transfer host p i d u (finalDownloadHeaders dh)
                 (preparedUploadHeaders u uh (contentLength p))) =
          ([Download d (finalDownloadHeaders dh)],
           Throw (ErrorObject (HelperTransfer.value_not_streamable d v))))
    as Hrun.
  { rewrite helper_transfer_run, Hreq. cbv zeta.
    unfold HelperTransfer.obtain_stream. rewrite Hbody, Hobj.
    destruct (HelperTransfer.statusCode resp) as [code|]; [|done].
    specialize (Hdown code eq_refl). by apply accepted_iff in Hdown as ->. }
  erewrite try_throw by exact Hrun.
  destruct (value_not_streamable_text d v) as (Hfmt & Hty & Hcon).
  set (msg := HelperTransfer.value_not_streamable d v) in *.
  exists (enhance msg d u).
  pose proof (enhance_includes msg d u) as Hin.
  split; [by eapply includes_trans|]. split; [by eapply includes_trans|].
  split; [by eapply includes_trans|]. by destruct (throwOnError p).
Qed.

(** *** The [catch] clause *)

(** X14.  Enhancing a message twice is the same as enhancing it once: the
    enhanced message always contains the words the [catch] clause looks for,
    so an error that passes through the clause again is not wrapped a second
    time. *)
Theorem enhance_idempotent (message d u : string) :
  names_a_url (enhance message d u) = true ∧
  enhance (enhance message d u) d u = enhance message d u.
Proof.
  assert (names_a_url (enhance message d u) = true) as Hn.
  { destruct (names_a_url message) eqn:Hm.
    - by rewrite enhance_named.
    - rewrite enhance_unnamed by done. unfold names_a_url.
      apply orb_true_iff. left. find_segment. }
  split; [done|]. by apply enhance_named.
Qed.

(** *** Headers of the two requests *)

Lemma finalDownloadHeaders_lookup (dh : gmap string string) (k : string) :
  finalDownloadHeaders dh !! k =
    if decide (k = "Accept") then Some (default "*/*" (dh !! "Accept"))
    else dh !! k.
Proof.
  unfold finalDownloadHeaders. rewrite lookup_union.
  destruct (decide (k = "Accept")) as [->|Hk].
  - rewrite lookup_singleton_eq. by destruct (dh !! "Accept").
  - rewrite lookup_singleton_ne by done. by destruct (dh !! k).
Qed.

(** X15.  The download request of either operation goes to [downloadUrl]
    with the user's download headers unchanged; [Accept] is sent in every
    case, with the user's value when there is one and with the wildcard
    otherwise. *)
Theorem download_request_headers (native : TransferFile.Host)
    (helper : HelperTransfer.Host) (p : Params) (i : nat)
    (d : string) (dh : gmap string string)
    (url : string) (h : gmap string string) :
  downloadUrl p = Some d →
  parseHeaders (downloadHeadersParam p) = Ok dh →
  Download url h ∈ (run (TransferFile.execute native p i)).1 ∨
  Download url h ∈ (run (HelperTransfer.execute helper p i)).1 →
  url = d ∧
  h !! "Accept" = Some (default "*/*" (dh !! "Accept")) ∧
  ∀ k, k ≠ "Accept" → h !! k = dh !! k.
Proof.
  intros Hd Hdh Hin.
  assert (url = d ∧ h = finalDownloadHeaders dh) as [-> ->].
  { destruct Hin as [Hin|Hin].
    - destruct (native_execute_shape native p i)
        as [(message & _ & Hrun)
           |(d' & u & dh' & uh & Hd' & Hu & Hbd & Hbu & Hdh' & Huh & _)].
      { rewrite Hrun in Hin. by apply elem_of_nil in Hin. }
      assert (d' = d) as -> by congruence.
      assert (dh' = dh) as -> by congruence.
      destruct (native_log_cases native p i d u dh uh Hd' Hu Hbd Hbu Hdh' Huh)
        as [Hl|[Hl|[rl Hl]]]; rewrite Hl in Hin.
      + by apply elem_of_nil in Hin.
      + apply list_elem_of_singleton in Hin. by injection Hin as -> ->.
      + apply elem_of_cons in Hin as [Hin|Hin];
          [by injection Hin as -> ->|].
        by apply list_elem_of_singleton in Hin.
    - destruct (helper_execute_shape helper p i)
        as [(message & _ & Hrun)
           |(d' & u & dh' & uh & Hd' & Hu & Hbd & Hbu & Hdh' & Huh & _)].
      { rewrite Hrun in Hin. by apply elem_of_nil in Hin. }
      assert (d' = d) as -> by congruence.
      assert (dh' = dh) as -> by congruence.
      destruct (helper_log_cases helper p i d u dh uh Hd' Hu Hbd Hbu Hdh' Huh)
        as [Hl|[rl Hl]]; rewrite Hl in Hin.
      + apply list_elem_of_singleton in Hin. by injection Hin as -> ->.
      + apply elem_of_cons in Hin as [Hin|Hin];
          [by injection Hin as -> ->|].
        by apply list_elem_of_singleton in Hin. }
  split; [done|]. split.
  - rewrite finalDownloadHeaders_lookup. by destruct (decide _).
  - intros k Hk. rewrite finalDownloadHeaders_lookup. by destruct (decide _).
Qed.

Lemma initialUploadHeaders_content_type (uh : gmap string string) :
  initialUploadHeaders uh !! "Content-Type" =
    Some (default "application/octet-stream" (uh !! "Content-Type")).
Proof.
  unfold initialUploadHeaders. rewrite lookup_union, lookup_singleton_eq.
  by destruct (uh !! "Content-Type").
Qed.

(** X16.  The upload request of transferFile always has a [Content-Type]:
    the user's when supplied, [application/octet-stream] otherwise.  Every
    user-supplied upload header other than [Authorization] and
    [Content-Length] is sent unchanged and nothing else is added; when the
    upload URL yields no token, [Authorization] too is exactly what the user
    supplied. *)
Theorem upload_request_headers (host : TransferFile.Host)
    (p : Params) (i : nat) (d u : string) (dh uh h : gmap string string) :
  downloadUrl p = Some d → uploadUrl p = Some u →
  ¬ absent_or_blank (Some d) → ¬ absent_or_blank (Some u) →
  parseHeaders (downloadHeadersParam p) = Ok dh →
  parseHeaders (uploadHeadersParam p) = Ok uh →
  upload_headers (run (TransferFile.execute host p i)).1 = Some h →
  h !! "Content-Type" =
    Some (default "application/octet-stream" (uh !! "Content-Type")) ∧
  (∀ k, k ≠ "Content-Type" → k ≠ "Authorization" → k ≠ "Content-Length" →
        h !! k = uh !! k) ∧
  (token (extractBearerToken u) = None →
   h !! "Authorization" = uh !! "Authorization").
Proof.
  intros Hd Hu Hbd Hbu Hdh Huh Hh.
  destruct (native_execute_upload_headers host p i d u dh uh h) as [rl ->];
    try done.
  unfold preparedUploadHeaders. split; [|split].
  - rewrite add_detected_length_other, add_explicit_length_other,
      add_bearer_other by done.
    apply initialUploadHeaders_content_type.
  - intros k Hk1 Hk2 Hk3.
    rewrite add_detected_length_other, add_explicit_length_other,
      add_bearer_other by done.
    by apply initialUploadHeaders_other.
  - intros ->.
    rewrite add_detected_length_other, add_explicit_length_other by done.
    by apply initialUploadHeaders_other.
Qed.

Lemma prepared_content_length_unset u (uh : gmap string string) cl :
  sn_truthy cl = false →
  preparedUploadHeaders u uh cl !! "Content-Length" = uh !! "Content-Length".
Proof.
  intros Hcl. unfold preparedUploadHeaders, add_explicit_length.
  rewrite Hcl, add_bearer_other by done.
  by apply initialUploadHeaders_other.
Qed.

(** X17.  Without an explicit [contentLength] and without a user-supplied
    [Content-Length], transferFile takes the length from the download
    response: a [content-length] header that reads as a positive integer is
    sent as [Content-Length] of the upload; when the response has no such
    header, the upload has no [Content-Length]. *)
Theorem detected_length_is_forwarded (host : TransferFile.Host)
    (p : Params) (i : nat) (d u : string) (dh uh : gmap string string)
    (o : URL) (code : Z) (hdrs : gmap string string) :
  downloadUrl p = Some d → uploadUrl p = Some u →
  ¬ absent_or_blank (Some d) → ¬ absent_or_blank (Some u) →
  parseHeaders (downloadHeadersParam p) = Ok dh →
  parseHeaders (uploadHeadersParam p) = Ok uh →
  URL_new d = Ok o →
  TransferFile.client_request host (TransferFile.client_of o)
    (TransferFile.downloadOptions o (finalDownloadHeaders dh)) =
    TransferFile.Responded (Some code) hdrs →
  accepted code →
  sn_truthy (contentLength p) = false →
  uh !! "Content-Length" = None →
  ∃ h, upload_headers (run (TransferFile.execute host p i)).1 = Some h ∧
       (∀ s n, hdrs !! "content-length" = Some s → parseInt s = Some n →
               0 < n → h !! "Content-Length" = Some (String_of_number n)) ∧
       (hdrs !! "content-length" = None → h !! "Content-Length" = None).
Proof.
  intros Hd Hu Hbd%not_blank Hbu%not_blank Hdh Huh Ho Hc Hcode Hcl Hnone.
  rewrite (native_execute_valid host p i d u dh uh) by done.
  rewrite try_catch_log, native_transfer_run, Ho, Hc.
  change (default 0 (Some code)) with code.
  apply accepted_iff in Hcode as ->. cbv zeta. cbn [fst].
  eexists. split; [reflexivity|].
  pose proof (prepared_content_length_unset u uh (contentLength p) Hcl) as Hprep.
  rewrite Hnone in Hprep.
  unfold add_detected_length. rewrite Hcl.
  split.
  - intros s n Hs Hn Hpos. rewrite Hs. cbn [fmap option_fmap option_map].
    assert (sn_truthy (AsString s) = true) as ->.
    { by apply (positive_length_truthy (AsString s) n). }
    unfold header_set. rewrite Hprep. cbn [negb andb].
    unfold put_length. cbn [length_of]. rewrite Hn.
    destruct (Z.ltb_spec 0 n); [|lia]. by rewrite lookup_insert_eq.
  - intros Hs. by rewrite Hs.
Qed.

End WithRuntime.

(** *** On the reference runtime *)

Import Examples MoreExamples.

Lemma accepted_200 : accepted 200.
Proof. unfold accepted. lia. Qed.

Lemma soft_mode_never_raises_witness :
  (∃ r, (run (TransferFile.execute refusing_host
                (request (JStr "{}") no_length false) 0)).2 = Ok r) ∧
  (∃ r, (run (HelperTransfer.execute
                (helper_host 404 HelperTransfer.StreamBody 201)
                (request (JStr "{}") no_length false) 0)).2 = Ok r).
Proof.
  apply soft_mode_never_raises.
  - reflexivity.
  - exact source_not_blank.
  - exact target_not_blank.
Defined.

Lemma hard_mode_returns_only_success_witness :
  json plain_success !! "success" = Some (JBool true).
Proof.
  apply (proj1 (hard_mode_returns_only_success (native_host 200 201)
                  (helper_host 200 HelperTransfer.StreamBody 201)
                  (request (JStr "{}") no_length true) 0 eq_refl)).
  vm_compute. reflexivity.
Defined.

Lemma success_reports_accepted_statuses_witness :
  (∃ a b, json plain_success !! "downloadStatus" = Some (JNum a) ∧
          json plain_success !! "uploadStatus" = Some (JNum b) ∧
          accepted a ∧ accepted b) ∧
  (∃ a v, json textual_success !! "downloadStatus" = Some (JNum a) ∧
          accepted a ∧
          json textual_success !! "uploadStatus" = Some v ∧
          ((∃ b, v = JNum b ∧ accepted b) ∨
           (typeof v ≠ TNumber ∧ truthy v = true ∧
            HelperTransfer.failed_value v = false))).
Proof.
  split.
  - apply (success_reports_accepted_statuses (native_host 200 201)
             (textual_status_helper "250")
             (request (JStr "{}") no_length true) 0).
    + vm_compute. reflexivity.
    + vm_compute. reflexivity.
  - apply (success_reports_accepted_statuses (native_host 200 201)
             (textual_status_helper "250")
             (request (JStr "{}") no_length true) 0).
    + vm_compute. reflexivity.
    + vm_compute. reflexivity.
Defined.

(** On the reference runtime the text 401 is compared as the number it
    writes: the older operation returns the record of a refused upload with
    the text as [uploadStatus]. *)
Lemma textual_401_is_refused :
  ∃ r,
    (run (HelperTransfer.execute (textual_status_helper "401")
            (request (JStr "{}") no_length false) 0)).2 = Ok r ∧
    json r !! "success" = None ∧
    json r !! "uploadStatus" = Some (JStr "401") ∧
    json r !! "error" = Some (JStr (upload_failed_message 401 target POST)).
Proof. eexists. repeat split; vm_compute; reflexivity. Qed.

Lemma raises_errors_and_pairs_items_witness :
  (∃ message, ErrorObject download_required = ErrorObject message) ∧
  pairedItem plain_success = 0%nat.
Proof.
  destruct (raises_errors_and_pairs_items (native_host 200 201)
              (helper_host 200 HelperTransfer.StreamBody 201)
              blank_request 0) as (Hraise & _).
  destruct (raises_errors_and_pairs_items (native_host 200 201)
              (helper_host 200 HelperTransfer.StreamBody 201)
              (request (JStr "{}") no_length true) 0) as (_ & _ & Hpair & _).
  split.
  - apply Hraise. vm_compute. reflexivity.
  - apply Hpair. vm_compute. reflexivity.
Defined.

Lemma native_completed_transfer_witness :
  ∃ r, (run (TransferFile.execute announcing_host
               (request (JStr "{}") no_length true) 0)).2 = Ok r ∧
       json r !! "success" = Some (JBool true) ∧
       json r !! "downloadStatus" = Some (JNum 200) ∧
       json r !! "uploadStatus" = Some (JNum 201).
Proof.
  destruct (native_completed_transfer announcing_host
              (request (JStr "{}") no_length true) 0 source target ∅ ∅
              source_url 200 announced created)
    as (r & Hrun & Hs & Hd & Hu & _).
  - reflexivity.
  - reflexivity.
  - exact source_not_blank.
  - exact target_not_blank.
  - vm_compute. reflexivity.
  - vm_compute. reflexivity.
  - vm_compute. reflexivity.
  - reflexivity.
  - exact accepted_200.
  - reflexivity.
  - intros c [= <-]. unfold accepted. lia.
  - exists r. rewrite Hrun. repeat split; assumption.
Defined.

Lemma native_upload_response_field_witness :
  ∃ r, (run (TransferFile.execute announcing_host
               (request (JStr "{}") no_length true) 0)).2 = Ok r ∧
       json r !! "uploadResponse" = Some (JObj [("id", JNum 7)]).
Proof.
  destruct (native_upload_response_field announcing_host
              (request (JStr "{}") no_length true) 0 source target ∅ ∅
              source_url 200 announced created)
    as (r & Hrun & _ & Hparsed & _).
  - reflexivity.
  - reflexivity.
  - exact source_not_blank.
  - exact target_not_blank.
  - vm_compute. reflexivity.
  - vm_compute. reflexivity.
  - vm_compute. reflexivity.
  - reflexivity.
  - exact accepted_200.
  - reflexivity.
  - intros c [= <-]. unfold accepted. lia.
  - exists r. split; [exact Hrun|].
    apply (Hparsed (Reference.json_text "{'id': 7}")); [reflexivity|].
    vm_compute. reflexivity.
Defined.

Lemma native_missing_status_is_failure_witness :
  ∃ m : string,
    includes ("Download failed with HTTP 0 from " ++ source) m = true ∧
    run (TransferFile.execute statusless_host
           (request (JStr "{}") no_length true) 0) =
      ([Download source (finalDownloadHeaders ∅)], Throw (ErrorObject m)).
Proof.
  destruct (native_missing_status_is_failure statusless_host
              (request (JStr "{}") no_length true) 0 source target ∅ ∅
              source_url ∅) as (m & Hm & Hlog & Hres).
  - reflexivity.
  - reflexivity.
  - exact source_not_blank.
  - exact target_not_blank.
  - vm_compute. reflexivity.
  - vm_compute. reflexivity.
  - vm_compute. reflexivity.
  - reflexivity.
  - exists m. split; [exact Hm|].
    rewrite (surjective_pairing (run _)), Hlog, Hres. reflexivity.
Defined.


Lemma helper_plain_value_is_refused_witness :
  ∃ m : string,
    includes "is not a streamable format" m = true ∧
    includes "String" m = true ∧
    run (HelperTransfer.execute
           (helper_host 200 (HelperTransfer.ParsedBody (JStr "plain text")) 201)
           (request (JStr "{}") no_length true) 0) =
      ([Download source (finalDownloadHeaders ∅)], Throw (ErrorObject m)).
Proof.
  destruct (helper_plain_value_is_refused
              (helper_host 200 (HelperTransfer.ParsedBody (JStr "plain text")) 201)
              (request (JStr "{}") no_length true) 0 source target ∅ ∅
              {| HelperTransfer.statusCode := Some 200;
                 HelperTransfer.headers := None;
                 HelperTransfer.body :=
                   HelperTransfer.ParsedBody (JStr "plain text") |}
              (JStr "plain text"))
    as (m & Hfmt & _ & Hcon & Hrun).
  - reflexivity.
  - reflexivity.
  - exact source_not_blank.
  - exact target_not_blank.
  - vm_compute. reflexivity.
  - vm_compute. reflexivity.
  - reflexivity.
  - intros c [= <-]. exact accepted_200.
  - reflexivity.
  - reflexivity.
  - exists m. split; [exact Hfmt|]. split; [exact Hcon|]. exact Hrun.
Defined.

Lemma download_request_headers_witness :
  source = source ∧
  ({[ "Accept" := "*/*" ]} : gmap string string) !! "Accept" =
    Some (default "*/*" ((∅ : gmap string string) !! "Accept")) ∧
  ∀ k, k ≠ "Accept" →
       ({[ "Accept" := "*/*" ]} : gmap string string) !! k =
       (∅ : gmap string string) !! k.
Proof.
  apply (download_request_headers (native_host 404 201)
           (helper_host 404 HelperTransfer.StreamBody 201)
           (request (JStr "{}") no_length false) 0 source ∅ source
           {[ "Accept" := "*/*" ]}).
  - reflexivity.
  - vm_compute. reflexivity.
  - left.
    assert ((run (TransferFile.execute (native_host 404 201)
                    (request (JStr "{}") no_length false) 0)).1 =
            [Download source {[ "Accept" := "*/*" ]}]) as Hlog
      by (vm_compute; reflexivity).
    rewrite Hlog. apply list_elem_of_here.
Defined.

Definition traced_headers : gmap string string :=
  <[ "X-Trace" := "abc" ]>
    (<[ "Authorization" := "Bearer tok" ]>
       {[ "Content-Type" := "application/octet-stream" ]}).

Lemma upload_request_headers_witness :
  traced_headers !! "Content-Type" = Some "application/octet-stream" ∧
  traced_headers !! "X-Trace" = Some "abc".
Proof.
  destruct (upload_request_headers (native_host 200 201)
              (request (JObj [("X-Trace", JStr "abc")]) no_length true) 0
              source target ∅ {[ "X-Trace" := "abc" ]} traced_headers)
    as (Htype & Hother & _).
  - reflexivity.
  - reflexivity.
  - exact source_not_blank.
  - exact target_not_blank.
  - vm_compute. reflexivity.
  - vm_compute. reflexivity.
  - vm_compute. reflexivity.
  - split; [exact Htype|]. rewrite (Hother "X-Trace"); [|discriminate..].
    vm_compute. reflexivity.
Defined.

Lemma detected_length_is_forwarded_witness :
  ∃ h, upload_headers
         (run (TransferFile.execute announcing_host
                 (request (JStr "{}") no_length true) 0)).1 = Some h ∧
       h !! "Content-Length" = Some "4096".
Proof.
  destruct (detected_length_is_forwarded announcing_host
              (request (JStr "{}") no_length true) 0 source target ∅ ∅
              source_url 200 announced) as (h & Hh & Hlen & _).
  - reflexivity.
  - reflexivity.
  - exact source_not_blank.
  - exact target_not_blank.
  - vm_compute. reflexivity.
  - vm_compute. reflexivity.
  - vm_compute. reflexivity.
  - reflexivity.
  - exact accepted_200.
  - reflexivity.
  - reflexivity.
  - exists h. split; [exact Hh|].
    rewrite (Hlen "4096" 4096); [vm_compute; reflexivity | | |];
      vm_compute; reflexivity.
Defined.

End TransferExtras.

(** ** SiteToSiteFileTransfer.node.ts: the loop over the input items *)

Module NodeProperties.
Import Js GenericFunctions Operation Notions MoreNotions NodeNotions.
Import StringFacts MonadFacts HeaderProperties TransferProperties TransferExtras.

Local Open Scope list_scope.

(** *** Invocations only add to the log *)

Lemma appends_ret {A} (a : A) : appends (mret a : M A).
Proof. intros log. unfold run, mret, M_ret. cbn. by rewrite app_nil_r. Qed.

Lemma appends_throw {A} (e : Thrown) : appends (throw e : M A).
Proof. intros log. unfold run, throw. cbn. by rewrite app_nil_r. Qed.

Lemma appends_lift {A} (r : Res A) : appends (lift r).
Proof. intros log. unfold run, lift. cbn. by rewrite app_nil_r. Qed.

Lemma appends_emit (r : Request) : appends (emit r).
Proof. intros log. reflexivity. Qed.

Lemma appends_bind {A B} (m : M A) (k : A → M B) :
  appends m → (∀ a, appends (k a)) → appends (m ≫= k).
Proof.
  intros Hm Hk log. unfold run, mbind, M_bind.
  rewrite (Hm log). unfold run.
  destruct (m []) as [l1 [a|e]]; cbn [fst snd]; [|done].
  rewrite (Hk a (log ++ l1)%list), (Hk a l1). unfold run. cbn [fst snd].
  by rewrite app_assoc.
Qed.

Lemma appends_try {A} (m : M A) (handler : Thrown → M A) :
  appends m → (∀ e, appends (handler e)) → appends (try_catch_M m handler).
Proof.
  intros Hm Hh log. unfold run, try_catch_M.
  rewrite (Hm log). unfold run.
  destruct (m []) as [l1 [a|e]]; cbn [fst snd]; [done|].
  rewrite (Hh e (log ++ l1)%list), (Hh e l1). unfold run. cbn [fst snd].
  by rewrite app_assoc.
Qed.

Lemma appends_on_error (b : bool) (i : nat) (d u : string) (e : Thrown) :
  appends (on_error b i d u e).
Proof.
  unfold on_error. destruct b; [apply appends_throw | apply appends_ret].
Qed.

Lemma appends_required (url : option string) (message : string) :
  appends (required url message).
Proof.
  unfold required. destruct url; [|apply appends_throw].
  destruct (blank _); [apply appends_throw | apply appends_ret].
Qed.

Section WithRuntime.
Context `{!Runtime}.
Variable host : TransferFile.Host.

Lemma appends_download p d fdh prepared :
  appends (TransferFile.download host p d fdh prepared).
Proof.
  unfold TransferFile.download.
  apply appends_bind; [apply appends_lift|]. intros o.
  apply appends_bind; [apply appends_emit|]. intros _.
  destruct (TransferFile.client_request _ _ _); [|apply appends_throw].
  destruct (failed_status _); [apply appends_throw | apply appends_ret].
Qed.

Lemma appends_transfer p i d u fdh prepared :
  appends (TransferFile.transfer host p i d u fdh prepared).
Proof.
  unfold TransferFile.transfer.
  apply appends_bind; [apply appends_download|]. intros [code h].
  apply appends_bind; [apply appends_emit|]. intros _.
  apply appends_bind; [apply appends_lift|]. intros resp. cbv zeta.
  destruct (TransferFile.statusCode resp) as [c|]; [|apply appends_ret].
  destruct (failed_status c); [|apply appends_ret].
  destruct (throwOnError p); [apply appends_throw | apply appends_ret].
Qed.

(** An invocation of transferFile leaves the requests before it in place and
    behaves as it does on its own. *)
Lemma appends_execute p i : appends (TransferFile.execute host p i).
Proof.
  unfold TransferFile.execute.
  apply appends_bind; [apply appends_required|]. intros d.
  apply appends_bind; [apply appends_required|]. intros u.
  apply appends_bind; [apply appends_lift|]. intros dh.
  apply appends_bind; [apply appends_lift|]. intros uh. cbv zeta.
  apply appends_try; [apply appends_transfer|]. intros e.
  apply appends_on_error.
Qed.

Variable ctx : Node.Context.

(** One turn of the loop. *)
Lemma loop_step (remaining itemIndex : nat)
    (returnData : list INodeExecutionData) (log : list Request) :
  Node.loop host ctx (S remaining) itemIndex returnData log =
    match (item_run host ctx itemIndex).2 with
    | Ok r =>
        Node.loop host ctx remaining (S itemIndex) (returnData ++ [r])
          (log ++ (item_run host ctx itemIndex).1)
    | Throw e =>
        if Node.continueOnFail ctx
        then Node.loop host ctx remaining (S itemIndex)
               (returnData ++ [Node.error_entry e itemIndex])
               (log ++ (item_run host ctx itemIndex).1)
        else ((log ++ (item_run host ctx itemIndex).1)%list,
              Throw (Node.rethrown e))
    end.
Proof.
  cbn [Node.loop]. unfold mbind, M_bind, try_catch_M, item_run.
  change (Actions.execute Actions.transferFile) with TransferFile.execute.
  rewrite (appends_execute (Node.parameters ctx itemIndex) itemIndex log).
  destruct (run _) as [l [r|e]]; cbn [fst snd]; [done|].
  by destruct (Node.continueOnFail ctx).
Qed.

Lemma requests_of_cons (first count : nat) :
  requests_of host ctx first (S count) =
    ((item_run host ctx first).1 ++ requests_of host ctx (S first) count)%list.
Proof. reflexivity. Qed.

Lemma item_entry_ok (j : nat) (r : INodeExecutionData) :
  (item_run host ctx j).2 = Ok r → item_entry host ctx j = r.
Proof. intros Hr. unfold item_entry. by rewrite Hr. Qed.

Lemma item_entry_throw (j : nat) (e : Thrown) :
  (item_run host ctx j).2 = Throw e →
  item_entry host ctx j = Node.error_entry e j.
Proof. intros Hr. unfold item_entry. by rewrite Hr. Qed.

Lemma loop_continue (remaining itemIndex : nat)
    (returnData : list INodeExecutionData) (log : list Request) :
  Node.continueOnFail ctx = true →
  Node.loop host ctx remaining itemIndex returnData log =
    ((log ++ requests_of host ctx itemIndex remaining)%list,
     Ok (returnData ++ (item_entry host ctx <$> seq itemIndex remaining))%list).
Proof.
  intros Hc. revert itemIndex returnData log.
  induction remaining as [|remaining IH]; intros itemIndex returnData log.
  - cbn. by rewrite !app_nil_r.
  - rewrite loop_step, Hc, requests_of_cons. cbn [seq fmap list_fmap].
    destruct (item_run host ctx itemIndex).2 as [r|e] eqn:Hr.
    + by rewrite IH, (item_entry_ok _ _ Hr), <- !app_assoc.
    + by rewrite IH, (item_entry_throw _ _ Hr), <- !app_assoc.
Qed.

Lemma loop_all_return (remaining itemIndex : nat)
    (returnData : list INodeExecutionData) (log : list Request) :
  (∀ j, itemIndex ≤ j < itemIndex + remaining →
        ∃ r, (item_run host ctx j).2 = Ok r)%nat →
  Node.loop host ctx remaining itemIndex returnData log =
    ((log ++ requests_of host ctx itemIndex remaining)%list,
     Ok (returnData ++ (item_entry host ctx <$> seq itemIndex remaining))%list).
Proof.
  revert itemIndex returnData log.
  induction remaining as [|remaining IH]; intros itemIndex returnData log Hall.
  - cbn. by rewrite !app_nil_r.
  - rewrite loop_step, requests_of_cons. cbn [seq fmap list_fmap].
    destruct (Hall itemIndex) as [r Hr]; [lia|]. rewrite Hr.
    rewrite IH, (item_entry_ok _ _ Hr), <- !app_assoc; [reflexivity|].
    intros j Hj. apply Hall. lia.
Qed.

Lemma loop_first_failure (remaining itemIndex k : nat)
    (returnData : list INodeExecutionData) (log : list Request) (e : Thrown) :
  Node.continueOnFail ctx = false →
  (itemIndex ≤ k < itemIndex + remaining)%nat →
  (∀ j, itemIndex ≤ j < k → ∃ r, (item_run host ctx j).2 = Ok r)%nat →
  (item_run host ctx k).2 = Throw e →
  Node.loop host ctx remaining itemIndex returnData log =
    ((log ++ requests_of host ctx itemIndex (S k - itemIndex))%list,
     Throw (Node.rethrown e)).
Proof.
  intros Hc. revert itemIndex returnData log.
  induction remaining as [|remaining IH];
    intros itemIndex returnData log Hk Hbefore He; [lia|].
  rewrite loop_step, Hc.
  destruct (decide (k = itemIndex)) as [->|Hne].
  - rewrite He. replace (S itemIndex - itemIndex)%nat with 1%nat by lia.
    unfold requests_of. cbn. by rewrite app_nil_r.
  - destruct (Hbefore itemIndex) as [r Hr]; [lia|]. rewrite Hr.
    rewrite (IH (S itemIndex)); [|lia|intros j Hj; apply Hbefore; lia|done].
    replace (S k - itemIndex)%nat with (S (S k - S itemIndex)) by lia.
    by rewrite requests_of_cons, app_assoc.
Qed.

(** X18.  With [continueOnFail] the node never raises.  Its output is one
    list with exactly one entry per input item, in input order: the record
    the item's transfer returned, or, when the transfer raised, an entry
    holding the error message and the index of the item.  A failing item
    does not disturb the items after it: each item is processed as it would
    be on its own. *)
Theorem node_continues_on_failure :
  Node.continueOnFail ctx = true →
  run (Node.execute host ctx) =
    (requests_of host ctx 0 (Node.items ctx),
     Ok [item_entry host ctx <$> seq 0 (Node.items ctx)]).
Proof.
  intros Hc. unfold run, Node.execute.
  erewrite bind_ok by (by apply loop_continue). reflexivity.
Qed.

(** X19.  Without [continueOnFail] the node stops at the first item whose
    transfer raises: it raises that item's error, unchanged, and sends no
    request for any later item. *)
Theorem node_stops_at_first_failure (k : nat) (e : Thrown) :
  Node.continueOnFail ctx = false →
  (k < Node.items ctx)%nat →
  (∀ j, j < k → ∃ r, (item_run host ctx j).2 = Ok r)%nat →
  (item_run host ctx k).2 = Throw e →
  run (Node.execute host ctx) = (requests_of host ctx 0 (S k), Throw e).
Proof.
  intros Hc Hk Hbefore He. unfold run, Node.execute.
  erewrite bind_throw.
  2:{ apply (loop_first_failure _ _ k _ _ e); [done|lia| |done].
      intros j Hj. apply Hbefore. lia. }
  cbn [app]. rewrite Nat.sub_0_r.
  destruct (native_raises_error_object host _ _ e He) as [message ->].
  reflexivity.
Qed.

(** X20.  When no item raises, the node returns the records of all items in
    input order, whatever [continueOnFail] is, and each record is paired
    with the index of its item. *)
Theorem node_returns_all_records :
  (∀ j, j < Node.items ctx → ∃ r, (item_run host ctx j).2 = Ok r)%nat →
  ∃ records,
    run (Node.execute host ctx) =
      (requests_of host ctx 0 (Node.items ctx), Ok [records]) ∧
    length records = Node.items ctx ∧
    ∀ j r, records !! j = Some r →
           (item_run host ctx j).2 = Ok r ∧ pairedItem r = j.
Proof.
  intros Hall. exists (item_entry host ctx <$> seq 0 (Node.items ctx)).
  split; [|split].
  - unfold run, Node.execute.
    erewrite bind_ok; [reflexivity|].
    apply loop_all_return. intros j Hj. apply Hall. lia.
  - by rewrite length_fmap, length_seq.
  - intros j r Hj. rewrite list_lookup_fmap in Hj.
    destruct (seq 0 (Node.items ctx) !! j) as [j'|] eqn:Hseq; [|done].
    apply lookup_seq in Hseq as [-> Hlt]. cbn in Hj. injection Hj as <-.
    destruct (Hall j Hlt) as [r Hr]. rewrite (item_entry_ok _ _ Hr).
    split; [done|]. by destruct (native_returned host _ _ r Hr).
Qed.

End WithRuntime.

(** *** On the reference runtime *)

Import Examples MoreExamples.

Lemma node_continues_on_failure_witness :
  run (Node.execute selective_host (three_items true)) =
    (requests_of selective_host (three_items true) 0 3,
     Ok [item_entry selective_host (three_items true) <$> seq 0 3]) ∧
  json (item_entry selective_host (three_items true) 1) !! "success" = None ∧
  json (item_entry selective_host (three_items true) 2) !! "success" =
    Some (JBool true).
Proof.
  split.
  - apply (node_continues_on_failure selective_host (three_items true)).
    reflexivity.
  - split; vm_compute; reflexivity.
Defined.

Lemma node_stops_at_first_failure_witness :
  run (Node.execute selective_host (three_items false)) =
    (requests_of selective_host (three_items false) 0 2,
     Throw (ErrorObject (enhance (download_failed_message 404 missing)
                           missing target))) ∧
  length (requests_of selective_host (three_items false) 0 2) = 3%nat.
Proof.
  split.
  - apply (node_stops_at_first_failure selective_host (three_items false) 1).
    + reflexivity.
    + cbn. lia.
    + intros j Hj. assert (j = 0%nat) as -> by lia.
      eexists. vm_compute. reflexivity.
    + vm_compute. reflexivity.
  - vm_compute. reflexivity.
Defined.

Lemma node_returns_all_records_witness :
  ∃ records,
    run (Node.execute (native_host 200 201) (three_items false)) =
      (requests_of (native_host 200 201) (three_items false) 0 3,
       Ok [records]) ∧
    length records = 3%nat.
Proof.
  destruct (node_returns_all_records (native_host 200 201) (three_items false))
    as (records & Hrun & Hlen & _).
  - intros j Hj.
    destruct j as [|[|[|j]]]; [| | |cbn in Hj; lia];
      eexists; vm_compute; reflexivity.
  - exists records. split; [exact Hrun | exact Hlen].
Defined.

End NodeProperties.
